(** * LEDClient.py: the serpentine LED matrix and its binary protocol server

    A shallow embedding of [src/LEDClient.py].  The two classes of the
    file are modelled as they are written:

    - [LEDMatrix] owns the geometry and drives the strip.  Every call
      the Python code makes on the strip ([setPixelColor], [show]), on
      [time] ([sleep]) and on standard output ([print]) is recorded, in
      order, in the [events] of the world.
    - [LEDClient.start] reads frames from a socket.  The body of its
      outer [while True] loop (everything done for one accepted
      connection) is [serve_connection].

    Python statements run in the monad [M]: a state monad over [world]
    whose results are a value, a raised exception, or fuel exhaustion of
    the read loop (shown below never to happen). *)

From stdpp Require Import base tactics option list numbers strings.
From Stdlib Require Import ZArith Lia.
From Stdlib Require Strings.Byte.

Local Open Scope Z_scope.

(** ** Values *)

(** A colour value of rpi_ws281x: one integer, eight bits per channel. *)
Definition color : Type := Z.

(** [Color(red, green, blue)] of rpi_ws281x, with white left at its
    default: [(white << 24) | (red << 16) | (green << 8) | blue] on
    Python's unbounded integers. *)
Definition Color (red green blue : Z) : color :=
  Z.lor (Z.shiftl 0 24)
    (Z.lor (Z.shiftl red 16) (Z.lor (Z.shiftl green 8) blue)).
Global Arguments Color : simpl never.

(** The channels of a colour value as the driver reads them back:
    [(c >> 16) & 0xff], [(c >> 8) & 0xff] and [c & 0xff]. *)
Definition red (c : color) : Z := Z.land (Z.shiftr c 16) 255.
Definition green (c : color) : Z := Z.land (Z.shiftr c 8) 255.
Definition blue (c : color) : Z := Z.land c 255.

Global Instance color_eq_dec : EqDecision color := Z.eq_dec.

(** One element of [image_array[row][col]]: the triple unpacked by
    [red, green, blue = image_array[row][col]]. *)
Definition pixel : Type := Z * Z * Z.

(** [image_array]: indexed first by row, then by column. *)
Definition image : Type := list (list pixel).

(** The exceptions the modelled statements can raise. *)
Inductive exn :=
| StructError        (* struct.unpack on a buffer of the wrong size *)
| ValueError         (* ndarray.reshape on a buffer of the wrong size;
                        time.sleep of a negative length *)
| AttributeError     (* attribute access on None *)
| IndexError         (* image_array[row][col] out of range *)
| ZeroDivisionError  (* divmod(i, 0) *)
| ConnectionError    (* conn.recv failing *)
| RuntimeError.      (* Adafruit_NeoPixel(...) / strip.begin() failing *)

Global Instance exn_eq_dec : EqDecision exn.
Proof. solve_decision. Defined.

(** The texts given to [print]; formatted integers and names are kept as
    arguments. *)
Inductive message :=
| MsgDisplayed                    (* "Displayed new image on LED matrix with serpentine pattern." *)
| MsgCleared                      (* "Cleared LED matrix." *)
| MsgTestPatternDone              (* "Completed test pattern." *)
| MsgRainbowDone                  (* "Completed rainbow sweep pattern." *)
| MsgInitializing (rows cols : Z) (* "Initializing LED matrix with size {rows}x{cols}" *)
| MsgReceivingImage               (* "Receiving image data" *)
| MsgTestCommand (code : Z)       (* "Received test pattern command: code {data_length}" *)
| MsgUnknownCode                  (* "Unknown test pattern code received." *)
| MsgRunning (name : string)      (* "Running test pattern: {pattern_name}" *)
| MsgUnknownPattern (name : string) (* "Error: Unknown test pattern '{pattern_name}'." *)
| MsgListening                    (* "Client listening on {self.host}:{self.port}" *)
| MsgConnected                    (* "Connected by {addr}" *)
| MsgConnectionError (e : exn)    (* "Connection error: {e}" *)
| MsgConnectionClosed.            (* "Connection closed. Waiting for new connection." *)

Global Instance message_eq_dec : EqDecision message.
Proof. solve_decision. Defined.

(** The observable calls, in the order the program makes them. *)
Inductive event :=
| StripBegin (led_count : Z)          (* Adafruit_NeoPixel(led_count, ...) and strip.begin() *)
| SetPixelColor (n : Z) (c : color)   (* strip.setPixelColor(n, c) *)
| StripShow                           (* strip.show() *)
| TimeSleep (ms : Z)                  (* time.sleep(ms / 1000) *)
| Printed (m : message)                 (* print(...) *)
| ConnClose.                          (* conn.close() *)

Global Instance event_eq_dec : EqDecision event.
Proof. solve_decision. Defined.

(** The fields [__init__] stores on a [LEDMatrix]. *)
Record LEDMatrix := MkLEDMatrix { rows : Z; cols : Z; led_count : Z }.

(** What the peer's stream delivers to successive [conn.recv] calls:
    bytes arriving together, or a failure of the read.  A stream with
    nothing left is a closed connection. *)
Inductive segment :=
| Data (bs : list Byte.byte)
| Failure.

(** ** The world and the monad *)

Record world := World {
  conn : list segment;            (* the accepted connection, unread part *)
  led_matrix : option LEDMatrix;  (* self.led_matrix; None is Python's None *)
  events : list event;            (* calls made so far, oldest first *)
  hw_ok : Z → bool                (* does the strip initialise with this led_count? *)
}.

Inductive result (A : Type) :=
| Ok (a : A)
| Raise (e : exn)
| OutOfFuel.
Arguments Ok {A} a.
Arguments Raise {A} e.
Arguments OutOfFuel {A}.

Definition M (A : Type) : Type := world → result A * world.

Global Instance M_ret : MRet M := λ A a w, (Ok a, w).

Global Instance M_bind : MBind M := λ A B f m w,
  match m w with
  | (Ok a, w') => f a w'
  | (Raise e, w') => (Raise e, w')
  | (OutOfFuel, w') => (OutOfFuel, w')
  end.

Definition raise {A} (e : exn) : M A := λ w, (Raise e, w).

Definition out_of_fuel {A} : M A := λ w, (OutOfFuel, w).

Definition record (evs : list event) (w : world) : world :=
  {| conn := conn w; led_matrix := led_matrix w;
     events := events w ++ evs; hw_ok := hw_ok w |}.

Definition emit (e : event) : M unit := λ w, (Ok tt, record [e] w).

Definition print (m : message) : M unit := emit (Printed m).

(** [for x in xs: body(x)] *)
Fixpoint for_ {X} (xs : list X) (body : X → M unit) : M unit :=
  match xs with
  | [] => mret tt
  | x :: xs' => body x ;; for_ xs' body
  end.

(** [range(n)] *)
Definition range (n : Z) : list Z := seqZ 0 n.

(** [try: body / except Exception as e: handler(e) / finally: final] *)
Definition try_except_finally (body : M unit) (handler : exn → M unit)
    (final : M unit) : M unit := λ w,
  match body w with
  | (Ok _, w1) => final w1
  | (Raise e, w1) =>
      match handler e w1 with
      | (Ok _, w2) => final w2
      | (Raise e', w2) =>
          match final w2 with
          | (Ok _, w3) => (Raise e', w3)
          | other => other
          end
      | (OutOfFuel, w2) => (OutOfFuel, w2)
      end
  | (OutOfFuel, w1) => (OutOfFuel, w1)
  end.

(** ** class LEDMatrix *)

(** [np.clip(x, lo, hi)] on an integer, then [int(...)]. *)
Definition clip (x lo hi : Z) : Z := Z.min hi (Z.max x lo).

(** The element [image_array[row][col]] holds, if both indices are in
    range; the loop indices are never negative. *)
Definition pixel_at (image_array : image) (row col : Z) : option pixel :=
  r ← image_array !! Z.to_nat row; r !! Z.to_nat col.

(** [image_array[row][col]] *)
Definition image_at (image_array : image) (row col : Z) : M pixel :=
  match pixel_at image_array row col with
  | None => raise IndexError
  | Some p => mret p
  end.

(** [time.sleep(ms / 1000.0)]: a negative length is refused. *)
Definition time_sleep (ms : Z) : M unit :=
  if decide (ms < 0) then raise ValueError else emit (TimeSleep ms).

(** [divmod(a, b)] *)
Definition divmod (a b : Z) : M (Z * Z) :=
  if decide (b = 0) then raise ZeroDivisionError else mret (a `div` b, a `mod` b).

(** [__init__]: the strip is created for [rows * cols] elements and
    started; either call may fail. *)
Definition LEDMatrix_init (rows cols : Z) : M LEDMatrix := λ w,
  let led_count := rows * cols in
  if hw_ok w led_count
  then (Ok (MkLEDMatrix rows cols led_count), record [StripBegin led_count] w)
  else (Raise RuntimeError, w).

Definition clear_matrix (self : LEDMatrix) : M unit :=
  for_ (range (led_count self)) (λ i,
    emit (SetPixelColor i (Color 0 0 0))) ;;
  emit StripShow ;;
  print MsgCleared.

Definition display_image (self : LEDMatrix) (image_array : image) : M unit :=
  clear_matrix self ;;
  for_ (range (rows self)) (λ row,
    for_ (range (cols self)) (λ col,
      '(red, green, blue) ← image_at image_array row col;
      let led_index :=
        row * cols self
        + (if decide (row `mod` 2 = 0) then col else cols self - 1 - col) in
      emit (SetPixelColor led_index
              (Color (clip red 0 255) (clip green 0 255) (clip blue 0 255))))) ;;
  emit StripShow ;;
  print MsgDisplayed.

Definition test_pattern (self : LEDMatrix) (color_sequence : list color) : M unit :=
  for_ color_sequence (λ color,
    for_ (range (led_count self)) (λ i, emit (SetPixelColor i color)) ;;
    emit StripShow ;;
    time_sleep 500) ;;
  print MsgTestPatternDone.

Definition wheel (pos : Z) : color :=
  if decide (pos < 85) then Color (pos * 3) (255 - pos * 3) 0
  else if decide (pos < 170) then
    let pos := pos - 85 in Color (255 - pos * 3) 0 (pos * 3)
  else
    let pos := pos - 170 in Color 0 (pos * 3) (255 - pos * 3).

Definition rainbow_sweep (self : LEDMatrix) (delay_ms : Z) : M unit :=
  for_ (range 256) (λ j,
    for_ (range (led_count self)) (λ i,
      '(row, col) ← divmod i (cols self);
      let index :=
        if decide (row `mod` 2 = 0) then i
        else row * cols self + (cols self - 1 - col) in
      let color := wheel (Z.land (i + j) 255) in
      emit (SetPixelColor index color)) ;;
    emit StripShow ;;
    time_sleep delay_ms) ;;
  print MsgRainbowDone.

(** ** class LEDClient *)

Definition set_conn (c : list segment) (w : world) : world :=
  {| conn := c; led_matrix := led_matrix w; events := events w; hw_ok := hw_ok w |}.

Definition set_led_matrix (m : LEDMatrix) : M unit := λ w,
  (Ok tt, {| conn := conn w; led_matrix := Some m;
             events := events w; hw_ok := hw_ok w |}).

(** [self.led_matrix.<attribute>]: None has no attributes. *)
Definition led_matrix_attr : M LEDMatrix := λ w,
  match led_matrix w with
  | None => (Raise AttributeError, w)
  | Some m => (Ok m, w)
  end.

(** [conn.recv(bufsize)]: at most [bufsize] of the bytes that have
    arrived together; the empty byte string once the peer has closed. *)
Definition recv (bufsize : Z) : M (list Byte.byte) := λ w,
  match conn w with
  | [] => (Ok [], w)
  | Failure :: rest => (Raise ConnectionError, set_conn rest w)
  | Data bs :: rest =>
      let n := Z.to_nat bufsize in
      (Ok (take n bs),
       set_conn (match drop n bs with
                 | [] => rest
                 | unread => Data unread :: rest
                 end) w)
  end.

Definition byte_val (b : Byte.byte) : Z := Z.of_N (Byte.to_N b).

(** One ['!I'] field: unsigned, 32 bits, big-endian. *)
Definition uint32_be (b0 b1 b2 b3 : Byte.byte) : Z :=
  Z.lor (Z.shiftl (byte_val b0) 24)
    (Z.lor (Z.shiftl (byte_val b1) 16)
       (Z.lor (Z.shiftl (byte_val b2) 8) (byte_val b3))).

(** [struct.unpack('!II', buffer)] *)
Definition unpack_II (buffer : list Byte.byte) : M (Z * Z) :=
  match buffer with
  | [a0; a1; a2; a3; b0; b1; b2; b3] =>
      mret (uint32_be a0 a1 a2 a3, uint32_be b0 b1 b2 b3)
  | _ => raise StructError
  end.

(** [struct.unpack('!I', buffer)[0]] *)
Definition unpack_I (buffer : list Byte.byte) : M Z :=
  match buffer with
  | [a0; a1; a2; a3] => mret (uint32_be a0 a1 a2 a3)
  | _ => raise StructError
  end.

(** The uint8 buffer read three bytes at a time. *)
Fixpoint triples (flat : list Byte.byte) : list pixel :=
  match flat with
  | r :: g :: b :: rest => (byte_val r, byte_val g, byte_val b) :: triples rest
  | _ => []
  end.

(** [k] consecutive runs of [n] elements. *)
Fixpoint chunks {A} (n k : nat) (l : list A) : list (list A) :=
  match k with
  | O => []
  | S k' => take n l :: chunks n k' (drop n l)
  end.

(** [np.frombuffer(flat, dtype=np.uint8).reshape((rows, cols, 3))]: the
    sizes must agree.  [rows] and [cols] come from unsigned fields and
    are never negative. *)
Definition frombuffer_reshape (flat : list Byte.byte) (rows cols : Z) : M image :=
  if decide (0 ≤ rows ∧ 0 ≤ cols ∧ Z.of_nat (length flat) = rows * cols * 3)
  then mret (chunks (Z.to_nat cols) (Z.to_nat rows) (triples flat))
  else raise ValueError.

Definition run_test_pattern (pattern_name : string) : M unit :=
  print (MsgRunning pattern_name) ;;
  if decide (pattern_name = "rgb_sweep") then
    self_led_matrix ← led_matrix_attr;
    test_pattern self_led_matrix [Color 255 0 0; Color 0 0 255; Color 0 255 0]
  else if decide (pattern_name = "rainbow_sweep") then
    self_led_matrix ← led_matrix_attr;
    rainbow_sweep self_led_matrix 20
  else
    print (MsgUnknownPattern pattern_name).

(** The dispatch on [message_type] inside the read loop of [start]. *)
Definition handle_message (message_type data_length : Z) : M unit :=
  if decide (message_type = 0) then
    let rows := data_length in
    buffer ← recv 4;
    cols ← unpack_I buffer;
    print (MsgInitializing rows cols) ;;
    new_matrix ← LEDMatrix_init rows cols;
    set_led_matrix new_matrix
  else if decide (message_type = 1) then
    print MsgReceivingImage ;;
    flat_image_data ← recv data_length;
    self_led_matrix ← led_matrix_attr;
    image_array ← frombuffer_reshape flat_image_data
                    (rows self_led_matrix) (cols self_led_matrix);
    display_image self_led_matrix image_array
  else if decide (message_type = 2) then
    print (MsgTestCommand data_length) ;;
    if decide (data_length = 1) then run_test_pattern "rgb_sweep"
    else if decide (data_length = 2) then run_test_pattern "rainbow_sweep"
    else print MsgUnknownCode
  else mret tt.

(** The inner [while True] of [start]; [break] on an empty header. *)
Fixpoint read_loop (fuel : nat) : M unit :=
  match fuel with
  | O => out_of_fuel
  | S fuel' =>
      header ← recv 8;
      match header with
      | [] => mret tt
      | _ =>
          '(message_type, data_length) ← unpack_II header;
          handle_message message_type data_length ;;
          read_loop fuel'
      end
  end.

(** An upper bound on the number of headers a stream can deliver. *)
Definition stream_size (c : list segment) : nat :=
  sum_list_with (λ s, match s with Data bs => S (length bs) | Failure => 1%nat end) c.

(** The [finally] clause of [start]. *)
Definition cleanup : M unit :=
  (λ w, match led_matrix w with
        | Some self_led_matrix => clear_matrix self_led_matrix w
        | None => (Ok tt, w)
        end) ;;
  emit ConnClose ;;
  print MsgConnectionClosed.

(** Everything [start] does with one accepted connection: the [try]
    statement around the read loop. *)
Definition serve_connection : M unit := λ w,
  try_except_finally
    (read_loop (S (stream_size (conn w))))
    (λ e, print (MsgConnectionError e))
    cleanup w.

(** [start], observed over the connections it accepts in turn (the
    Python loop itself never ends). *)
Definition start (connections : list (list segment)) : M unit :=
  print MsgListening ;;
  for_ connections (λ c,
    (λ w, (Ok tt, set_conn c w)) ;;
    print MsgConnected ;;
    serve_connection).

(** ** Reading a run *)

(** The serpentine mapping in the words of the specification: even rows
    run left to right, odd rows right to left. *)
Definition physical_index (cols row col : Z) : Z :=
  row * cols + (if Z.even row then col else cols - 1 - col).

(** A geometry as [__init__] builds it from unsigned fields. *)
Definition geometry (self : LEDMatrix) : Prop :=
  0 ≤ rows self ∧ 0 ≤ cols self ∧ led_count self = rows self * cols self.

(** [image_array] has an element at every coordinate of the matrix. *)
Definition covers (image_array : image) (self : LEDMatrix) : Prop :=
  ∀ row col, 0 ≤ row < rows self → 0 ≤ col < cols self →
    is_Some (pixel_at image_array row col).

(** The colour [display_image] forwards for one element. *)
Definition clamped (p : pixel) : color :=
  let '(r, g, b) := p in Color (clip r 0 255) (clip g 0 255) (clip b 0 255).

Definition write (p : Z * color) : event := SetPixelColor p.1 p.2.

Definition targets (n : Z) (e : event) : bool :=
  match e with
  | SetPixelColor k _ => bool_decide (k = n)
  | _ => false
  end.

(** How many set-pixel calls of a run address element [n]. *)
Definition writes_to (n : Z) (evs : list event) : nat :=
  length (filter (λ e, targets n e) evs).

(** How many times a run calls [show]. *)
Definition shows (evs : list event) : nat :=
  length (filter (λ e, e = StripShow) evs).

(** A recording driver: the colour buffer after a run.  An index
    outside the buffer is ignored, as the driver does. *)
Definition strip_apply (leds : list color) (e : event) : list color :=
  match e with
  | SetPixelColor n c => if decide (0 ≤ n) then <[Z.to_nat n := c]> leds else leds
  | _ => leds
  end.

Definition strip_state (leds : list color) (evs : list event) : list color :=
  foldl strip_apply leds evs.

(** What one call of [clear_matrix] does. *)
Definition clear_events (self : LEDMatrix) : list event :=
  ((λ i, SetPixelColor i (Color 0 0 0)) <$> range (led_count self))
  ++ [StripShow; Printed MsgCleared].

(** The set-pixel calls of the frame pass of [display_image], row by row. *)
Definition frame_writes (self : LEDMatrix) (image_array : image) : list (Z * color) :=
  row ← range (rows self);
  (λ col, (physical_index (cols self) row col,
           clamped (default (0, 0, 0) (pixel_at image_array row col))))
    <$> range (cols self).

(** The set-pixel calls of frame [j] of [rainbow_sweep]. *)
Definition sweep_writes (self : LEDMatrix) (j : Z) : list (Z * color) :=
  (λ i, (physical_index (cols self) (i `div` cols self) (i `mod` cols self),
         wheel ((i + j) `mod` 256)))
    <$> range (led_count self).

(** What the [finally] clause does for a given [self.led_matrix]. *)
Definition cleanup_events (lm : option LEDMatrix) : list event :=
  match lm with
  | Some self_led_matrix => clear_events self_led_matrix
  | None => []
  end ++ [ConnClose; Printed MsgConnectionClosed].

(** A computation that only makes the calls [evs], whatever the world. *)
Definition emits (c : M unit) (evs : list event) : Prop :=
  ∀ w, c w = (Ok tt, record evs w).

(** The colour wheel as the specification describes it: three ramps of
    slope 3, red to green on 0..84, green to blue on 85..169, blue to
    red on 170..255. *)
Definition described_wheel (pos : Z) : color :=
  if decide (pos < 85) then Color (255 - pos * 3) (pos * 3) 0
  else if decide (pos < 170) then Color 0 (255 - (pos - 85) * 3) ((pos - 85) * 3)
  else Color ((pos - 170) * 3) 0 (255 - (pos - 170) * 3).

(** The stored geometry, if any, has the count [__init__] computes. *)
Definition counted (w : world) : Prop :=
  ∀ m, led_matrix w = Some m → led_count m = rows m * cols m.

(** A computation that never runs out of fuel, never puts bytes back
    on the stream, keeps the stored geometry well counted, and never
    resets [self.led_matrix] to None. *)
Definition tame {A} (c : M A) : Prop :=
  ∀ w, (c w).1 ≠ OutOfFuel
       ∧ (stream_size (conn (c w).2) ≤ stream_size (conn w))%nat
       ∧ (counted w → counted (c w).2)
       ∧ (is_Some (led_matrix w) → is_Some (led_matrix (c w).2)).

(** What the [except] clause prints for the way the read loop ended. *)
Definition report (r : result unit) : list event :=
  match r with
  | Raise e => [Printed (MsgConnectionError e)]
  | _ => []
  end.

(** The calls that reach the strip. *)
Definition is_driver_call (e : event) : bool :=
  match e with
  | StripBegin _ | SetPixelColor _ _ | StripShow => true
  | _ => false
  end.

Definition driver_calls (evs : list event) : list event :=
  filter (λ e, is_driver_call e) evs.

(** The calls a computation makes when run in [w]. *)
Definition emitted {A} (c : M A) (w : world) : list event :=
  drop (length (events w)) (events (c w).2).

(** ** Sample inputs *)

Definition byte_of (z : Z) : Byte.byte := default Byte.x00 (Byte.of_N (Z.to_N z)).

(** A listener that has not been set up, on a closed stream, with
    working hardware. *)
Definition fresh : world :=
  {| conn := []; led_matrix := None; events := []; hw_ok := λ _, true |}.

(** The same listener with the peer's stream [c] accepted. *)
Definition connected (c : list segment) : world := set_conn c fresh.

(** The listener holding [m] from an earlier Setup. *)
Definition configured (m : LEDMatrix) (c : list segment) : world :=
  {| conn := c; led_matrix := Some m; events := []; hw_ok := λ _, true |}.

(** Hardware that fails to initialise. *)
Definition failing_hardware (lm : option LEDMatrix) (c : list segment) : world :=
  {| conn := c; led_matrix := lm; events := []; hw_ok := λ _, false |}.

Definition one_by_one : LEDMatrix := MkLEDMatrix 1 1 1.
Definition two_by_two : LEDMatrix := MkLEDMatrix 2 2 4.
Definition two_by_three : LEDMatrix := MkLEDMatrix 2 3 6.

Definition image_1x1 : image := [[(300, -5, 7)]].
Definition image_2x3 : image :=
  [[(255, 0, 0); (0, 255, 0); (0, 0, 255)];
   [(256, -1, 128); (1, 2, 3); (255, 255, 0)]].

(** Frames as a peer sends them. *)
Definition setup_frame (rows cols : Z) : list Byte.byte :=
  byte_of <$> [0; 0; 0; 0; 0; 0; 0; rows; 0; 0; 0; cols].
Definition image_header (data_length : Z) : list Byte.byte :=
  byte_of <$> [0; 0; 0; 1; 0; 0; 0; data_length].
Definition pattern_frame (code : Z) : list Byte.byte :=
  byte_of <$> [0; 0; 0; 2; 0; 0; 0; code].

(** ** Further readings of a run *)

(** A fill: every element of the strip set to one colour, in index
    order. *)
Definition fill_writes (self : LEDMatrix) (c : color) : list (Z * color) :=
  (λ i, (i, c)) <$> range (led_count self).

(** The total time a run spends in [time.sleep], in milliseconds. *)
Fixpoint slept (evs : list event) : Z :=
  match evs with
  | [] => 0
  | TimeSleep ms :: evs' => ms + slept evs'
  | _ :: evs' => slept evs'
  end.

(** A computation that leaves [self.led_matrix] and the hardware as
    they are and only appends calls, none of them [conn.close()]. *)
Definition steady {A} (c : M A) : Prop :=
  ∀ w, led_matrix (c w).2 = led_matrix w
       ∧ hw_ok (c w).2 = hw_ok w
       ∧ ∃ evs, events (c w).2 = events w ++ evs ∧ ConnClose ∉ evs.

(** A stored geometry whose fields are what a Setup frame can carry:
    two unsigned 32-bit values and their product. *)
Definition well_formed (w : world) : Prop :=
  ∀ m, led_matrix w = Some m →
       geometry m ∧ rows m < 2 ^ 32 ∧ cols m < 2 ^ 32.

(** One turn of the outer loop of [start]: accept [c], then serve it. *)
Definition accept_and_serve (c : list segment) : M unit :=
  (λ w, (Ok tt, set_conn c w)) ;;
  print MsgConnected ;;
  serve_connection.

(** Is this call the start of a strip, as made by [LEDMatrix(...)]? *)
Definition starts_strip (e : event) : bool :=
  match e with
  | StripBegin _ => true
  | _ => false
  end.

(** A computation that leaves [self.led_matrix] alone and only appends
    calls, none of them the start of a strip. *)
Definition builds_nothing {A} (c : M A) : Prop :=
  ∀ w, led_matrix (c w).2 = led_matrix w
       ∧ ∃ evs, events (c w).2 = events w ++ evs
                ∧ Forall (λ e, starts_strip e = false) evs.

(** From [w] to [w'] calls were only appended, and if no matrix is held
    in [w'] then none was held in [w] and no strip was started in
    between. *)
Definition configured_since (w w' : world) : Prop :=
  ∃ evs, events w' = events w ++ evs
         ∧ (led_matrix w' = None →
            led_matrix w = None ∧ Forall (λ e, starts_strip e = false) evs).

(** ** The monad *)

Lemma bind_ok {A B} (m : M A) (f : A → M B) w a w' :
  m w = (Ok a, w') → (m ≫= f) w = f a w'.
Proof. intros H. unfold mbind, M_bind. by rewrite H. Qed.

Lemma bind_raise {A B} (m : M A) (f : A → M B) w e w' :
  m w = (Raise e, w') → (m ≫= f) w = (Raise e, w').
Proof. intros H. unfold mbind, M_bind. by rewrite H. Qed.

Lemma record_nil w : record [] w = w.
Proof. destruct w. unfold record. simpl. by rewrite app_nil_r. Qed.

Lemma record_app evs1 evs2 w : record evs2 (record evs1 w) = record (evs1 ++ evs2) w.
Proof. unfold record. simpl. by rewrite app_assoc. Qed.

Lemma emits_ret : emits (mret tt) [].
Proof. intros w. by rewrite record_nil. Qed.

Lemma emits_emit e : emits (emit e) [e].
Proof. by intros w. Qed.

Lemma emits_print m : emits (print m) [Printed m].
Proof. by intros w. Qed.

Lemma time_sleep_emits ms : 0 ≤ ms → emits (time_sleep ms) [TimeSleep ms].
Proof. intros Hms w. unfold time_sleep. by rewrite decide_False by lia. Qed.

Lemma emits_seq c1 c2 evs1 evs2 :
  emits c1 evs1 → emits c2 evs2 → emits (c1 ;; c2) (evs1 ++ evs2).
Proof.
  intros H1 H2 w. erewrite bind_ok by apply H1.
  by rewrite H2, record_app.
Qed.

Lemma emits_pair e1 e2 : emits (emit e1 ;; emit e2) [e1; e2].
Proof. apply (emits_seq _ _ [_] [_]); apply emits_emit. Qed.

Lemma emits_eq c evs evs' : emits c evs → evs = evs' → emits c evs'.
Proof. by intros H <-. Qed.

Lemma emits_for {X} (xs : list X) (body : X → M unit) (g : X → list event) :
  (∀ x, x ∈ xs → emits (body x) (g x)) → emits (for_ xs body) (xs ≫= g).
Proof.
  induction xs as [|x xs IH]; intros Hbody; cbn [for_].
  - apply emits_ret.
  - rewrite bind_cons. apply emits_seq.
    + apply Hbody. left.
    + apply IH. intros y Hy. apply Hbody. by right.
Qed.

Lemma emits_for_each {X} (xs : list X) (body : X → M unit) (g : X → event) :
  (∀ x, x ∈ xs → emits (body x) [g x]) → emits (for_ xs body) (g <$> xs).
Proof.
  intros Hbody. eapply emits_eq; [by apply (emits_for xs body (λ x, [g x]))|].
  clear Hbody. induction xs as [|x xs IH]; [done|].
  rewrite bind_cons, fmap_cons. simpl. by f_equal.
Qed.

(** ** The parity test and the index *)

Lemma parity_test {A} (row : Z) (a b : A) :
  (if decide (row `mod` 2 = 0) then a else b) = (if Z.even row then a else b).
Proof.
  rewrite Zeven_mod. destruct (decide (row `mod` 2 = 0)) as [H|H].
  - by rewrite H.
  - by apply Z.eqb_neq in H as ->.
Qed.

Lemma physical_index_bounds cols row col :
  0 ≤ col < cols → row * cols ≤ physical_index cols row col < row * cols + cols.
Proof. intros H. unfold physical_index. destruct (Z.even row); lia. Qed.

Lemma physical_index_inj_col cols row col1 col2 :
  physical_index cols row col1 = physical_index cols row col2 → col1 = col2.
Proof. unfold physical_index. destruct (Z.even row); lia. Qed.

Lemma physical_index_row cols row col :
  0 ≤ col < cols → physical_index cols row col `div` cols = row.
Proof.
  intros H. pose proof (physical_index_bounds cols row col H) as Hb.
  symmetry. apply (Z.div_unique_pos _ _ _ (physical_index cols row col - row * cols)); lia.
Qed.

(** ** The calls each [LEDMatrix] method makes *)

Lemma clear_matrix_emits self : emits (clear_matrix self) (clear_events self).
Proof.
  unfold clear_matrix, clear_events. apply emits_seq.
  - apply emits_for_each. intros i _. apply emits_emit.
  - apply (emits_seq _ _ [_] [_]); [apply emits_emit | apply emits_print].
Qed.

Lemma image_at_ok image_array row col p w :
  pixel_at image_array row col = Some p → image_at image_array row col w = (Ok p, w).
Proof. intros H. unfold image_at. by rewrite H. Qed.

Lemma display_image_emits self image_array :
  covers image_array self →
  emits (display_image self image_array)
    (clear_events self ++ (write <$> frame_writes self image_array)
     ++ [StripShow; Printed MsgDisplayed]).
Proof.
  intros Hcov. unfold display_image.
  apply emits_seq; [apply clear_matrix_emits|].
  apply emits_seq.
  - unfold frame_writes.
    eapply emits_eq.
    + apply (emits_for _ _ (λ row, write <$>
        ((λ col, (physical_index (cols self) row col,
                  clamped (default (0, 0, 0) (pixel_at image_array row col))))
           <$> range (cols self)))).
      intros row Hrow. rewrite <- list_fmap_compose.
      apply emits_for_each. intros col Hcol w.
      apply elem_of_seqZ in Hrow. apply elem_of_seqZ in Hcol.
      destruct (Hcov row col) as [[[r g] b] Hp]; [lia..|].
      erewrite bind_ok by (by apply image_at_ok).
      unfold compose. rewrite Hp. unfold emit, write, physical_index. simpl.
      by rewrite parity_test.
    + induction (range (rows self)) as [|row l IH]; [done|].
      rewrite !bind_cons, fmap_app. by f_equal.
  - apply (emits_seq _ _ [_] [_]); [apply emits_emit | apply emits_print].
Qed.

Lemma test_pattern_emits self color_sequence :
  emits (test_pattern self color_sequence)
    ((color_sequence ≫= λ color,
        ((λ i, SetPixelColor i color) <$> range (led_count self))
        ++ [StripShow; TimeSleep 500])
     ++ [Printed MsgTestPatternDone]).
Proof.
  unfold test_pattern. apply emits_seq; [|apply emits_print].
  apply emits_for. intros color _. apply emits_seq.
  - apply emits_for_each. intros i _. apply emits_emit.
  - apply (emits_seq _ _ [_] [_]); [apply emits_emit|by apply time_sleep_emits].
Qed.

Lemma land_255 (n : Z) : Z.land n 255 = n `mod` 256.
Proof. change 255 with (Z.ones 8). by rewrite Z.land_ones. Qed.

Lemma rainbow_sweep_emits self delay_ms :
  led_count self = rows self * cols self → 0 ≤ delay_ms →
  emits (rainbow_sweep self delay_ms)
    ((range 256 ≫= λ j,
        (write <$> sweep_writes self j) ++ [StripShow; TimeSleep delay_ms])
     ++ [Printed MsgRainbowDone]).
Proof.
  intros Hcount Hdelay. unfold rainbow_sweep. apply emits_seq; [|apply emits_print].
  apply emits_for. intros j _. apply emits_seq.
  - unfold sweep_writes. rewrite <- list_fmap_compose.
    apply emits_for_each. intros i Hi w. apply elem_of_seqZ in Hi.
    assert (cols self ≠ 0) as Hcols by (intros Hz; rewrite Hz in Hcount; lia).
    unfold divmod. destruct (decide (cols self = 0)) as [|_]; [done|].
    erewrite bind_ok by reflexivity. simpl.
    unfold emit, write, physical_index. simpl.
    rewrite parity_test, land_255.
    destruct (Z.even (i `div` cols self)); [|done].
    pose proof (Z.div_mod i (cols self) Hcols) as Hdm.
    replace (i `div` cols self * cols self + i `mod` cols self) with i by lia.
    done.
  - apply (emits_seq _ _ [_] [_]); [apply emits_emit|by apply time_sleep_emits].
Qed.

(** ** Lists built by nested loops *)

Lemma length_bind_uniform {A B} (f : A → list B) (n : nat) (l : list A) :
  (∀ y, y ∈ l → length (f y) = n) → length (l ≫= f) = (length l * n)%nat.
Proof.
  induction l as [|x l IH]; intros Hlen; [done|].
  rewrite bind_cons, length_app, IH by (intros; apply Hlen; by right).
  rewrite (Hlen x) by left. simpl. lia.
Qed.

Lemma lookup_bind_uniform {A B} (f : A → list B) (n : nat) (l : list A) (i j : nat) x :
  (∀ y, y ∈ l → length (f y) = n) → l !! i = Some x → (j < n)%nat →
  (l ≫= f) !! (i * n + j)%nat = f x !! j.
Proof.
  revert i. induction l as [|y l IH]; intros i Hlen Hi Hj; [done|].
  rewrite bind_cons. destruct i as [|i]; simpl in *.
  - simplify_eq. apply lookup_app_l. rewrite Hlen; [done|left].
  - rewrite lookup_app_r by (rewrite Hlen; [lia|left]).
    rewrite (Hlen y) by left.
    replace (n + i * n + j - n)%nat with (i * n + j)%nat by lia.
    apply IH; [|done..]. intros z Hz. apply Hlen. by right.
Qed.

Lemma filter_one {A} (P : A → Prop) `{!∀ x, Decision (P x)} (l : list A) (x : A) :
  NoDup l → x ∈ l → (∀ y, y ∈ l → P y ↔ y = x) → length (filter P l) = 1%nat.
Proof.
  induction 1 as [|y l Hy Hnd IH]; intros Hx HP; [by apply elem_of_nil in Hx|].
  destruct (decide (P y)) as [Hy'|Hy'].
  - rewrite filter_cons_True by done.
    apply HP in Hy' as ->; [|left].
    simpl. f_equal. apply length_zero_iff_nil.
    apply elem_of_nil_inv. intros z [Hz Hin]%list_elem_of_filter.
    apply HP in Hz; [|by right]. by subst.
  - rewrite filter_cons_False by done.
    apply IH.
    + apply elem_of_cons in Hx as [->|?]; [|done].
      exfalso. apply Hy'. apply HP; [left|done].
    + intros z Hz. apply HP. by right.
Qed.

(** ** The frame pass of display_image *)

Section frame.
Context (self : LEDMatrix) (image_array : image).
Hypothesis Hgeo : geometry self.

Lemma length_frame_writes :
  length (frame_writes self image_array) = Z.to_nat (rows self * cols self).
Proof.
  destruct Hgeo as (Hr & Hc & _). unfold frame_writes.
  rewrite (length_bind_uniform _ (Z.to_nat (cols self))).
  - unfold range. rewrite length_seqZ, Z2Nat.inj_mul; lia.
  - intros row _. unfold range. by rewrite length_fmap, length_seqZ.
Qed.

Lemma lookup_frame_writes row col :
  0 ≤ row < rows self → 0 ≤ col < cols self →
  frame_writes self image_array !! Z.to_nat (row * cols self + col)
  = Some (physical_index (cols self) row col,
          clamped (default (0, 0, 0) (pixel_at image_array row col))).
Proof.
  intros Hrow Hcol. unfold frame_writes.
  rewrite Z2Nat.inj_add, Z2Nat.inj_mul by nia.
  rewrite (lookup_bind_uniform _ (Z.to_nat (cols self)) _ _ _ row).
  - rewrite list_lookup_fmap. unfold range.
    rewrite lookup_seqZ_lt by lia. simpl.
    by replace (0 + Z.of_nat (Z.to_nat col)) with col by lia.
  - intros y _. unfold range. by rewrite length_fmap, length_seqZ.
  - unfold range. rewrite lookup_seqZ_lt by lia. f_equal. lia.
  - lia.
Qed.

Lemma elem_of_frame_targets p :
  p ∈ (frame_writes self image_array).*1 ↔
  ∃ row col, 0 ≤ row < rows self ∧ 0 ≤ col < cols self
             ∧ p = physical_index (cols self) row col.
Proof.
  unfold frame_writes. rewrite list_elem_of_fmap. split.
  - intros ([q c] & -> & Hin). apply list_elem_of_bind in Hin as (row & Hin & Hrow).
    apply list_elem_of_fmap in Hin as (col & Heq & Hcol).
    apply elem_of_seqZ in Hrow. apply elem_of_seqZ in Hcol.
    simplify_eq. exists row, col. split_and!; first [lia | done].
  - intros (row & col & Hrow & Hcol & ->).
    eexists (_, _). split; [done|].
    apply list_elem_of_bind. exists row. split.
    + apply list_elem_of_fmap. exists col. split; [done|].
      apply elem_of_seqZ. lia.
    + apply elem_of_seqZ. lia.
Qed.

Lemma NoDup_frame_targets : NoDup (frame_writes self image_array).*1.
Proof.
  unfold frame_writes.
  assert (∀ l : list Z,
    (l ≫= λ row, (λ col, (physical_index (cols self) row col,
        clamped (default (0, 0, 0) (pixel_at image_array row col))))
        <$> range (cols self)).*1
    = l ≫= λ row, physical_index (cols self) row <$> range (cols self)) as ->.
  { induction l as [|row l IH]; [done|].
    rewrite !bind_cons, fmap_app, IH. f_equal.
    by rewrite <- list_fmap_compose. }
  apply NoDup_bind.
  - intros row1 row2 p _ _ (c1 & -> & H1)%list_elem_of_fmap (c2 & Heq & H2)%list_elem_of_fmap.
    apply elem_of_seqZ in H1. apply elem_of_seqZ in H2.
    rewrite <- (physical_index_row (cols self) row1 c1) by lia.
    rewrite <- (physical_index_row (cols self) row2 c2) by lia.
    by rewrite Heq.
  - intros row _. apply NoDup_fmap_2_strong; [|apply NoDup_seqZ].
    intros c1 c2 _ _. apply physical_index_inj_col.
  - apply NoDup_seqZ.
Qed.

Lemma frame_targets_all p :
  0 ≤ p < rows self * cols self → p ∈ (frame_writes self image_array).*1.
Proof.
  intros Hp. destruct Hgeo as (Hr & Hc & _).
  assert (0 < cols self) as Hpos by nia.
  pose proof (Z.div_mod p (cols self) ltac:(lia)) as Hdm.
  pose proof (Z.mod_pos_bound p (cols self) Hpos) as Hmod.
  assert (0 ≤ p `div` cols self < rows self) as Hrow.
  { split; [apply Z.div_pos; lia|]. apply Z.div_lt_upper_bound; lia. }
  apply elem_of_frame_targets.
  exists (p `div` cols self),
    (if Z.even (p `div` cols self) then p `mod` cols self
     else cols self - 1 - p `mod` cols self).
  unfold physical_index. destruct (Z.even (p `div` cols self)); split_and!; lia.
Qed.

End frame.

(** ** Counting calls *)

Lemma writes_to_app n evs1 evs2 :
  writes_to n (evs1 ++ evs2) = (writes_to n evs1 + writes_to n evs2)%nat.
Proof. unfold writes_to. by rewrite filter_app, length_app. Qed.

Lemma shows_app evs1 evs2 : shows (evs1 ++ evs2) = (shows evs1 + shows evs2)%nat.
Proof. unfold shows. by rewrite filter_app, length_app. Qed.

Lemma writes_to_writes n (ws : list (Z * color)) :
  writes_to n (write <$> ws) = length (filter (λ k, k = n) ws.*1).
Proof.
  unfold writes_to. induction ws as [|[k c] ws IH]; [done|].
  rewrite !fmap_cons, !filter_cons. simpl.
  destruct (decide (k = n)) as [->|Hne].
  - rewrite bool_decide_eq_true_2 by done. simpl. by rewrite IH.
  - rewrite bool_decide_eq_false_2 by done. simpl. by rewrite IH.
Qed.

Lemma writes_to_once n (ws : list (Z * color)) :
  NoDup ws.*1 → n ∈ ws.*1 → writes_to n (write <$> ws) = 1%nat.
Proof.
  intros Hnd Hin. rewrite writes_to_writes.
  by apply (filter_one _ _ n).
Qed.

Lemma shows_writes (ws : list (Z * color)) : shows (write <$> ws) = 0%nat.
Proof.
  unfold shows. induction ws as [|[k c] ws IH]; [done|].
  rewrite fmap_cons, filter_cons_False; done.
Qed.

Lemma clear_events_writes self :
  clear_events self
  = (write <$> ((λ i, (i, Color 0 0 0)) <$> range (led_count self)))
    ++ [StripShow; Printed MsgCleared].
Proof. unfold clear_events. by rewrite <- list_fmap_compose. Qed.

Lemma writes_to_clear_events self n :
  0 ≤ n < led_count self → writes_to n (clear_events self) = 1%nat.
Proof.
  intros Hn. rewrite clear_events_writes, writes_to_app.
  rewrite writes_to_once; [done|..].
  - rewrite <- list_fmap_compose. change (fst ∘ _) with (@id Z).
    rewrite list_fmap_id. apply NoDup_seqZ.
  - rewrite <- list_fmap_compose. change (fst ∘ _) with (@id Z).
    rewrite list_fmap_id. apply elem_of_seqZ. lia.
Qed.

Lemma shows_clear_events self : shows (clear_events self) = 1%nat.
Proof. by rewrite clear_events_writes, shows_app, shows_writes. Qed.

(** ** The recording driver *)

Lemma strip_state_app leds evs1 evs2 :
  strip_state leds (evs1 ++ evs2) = strip_state (strip_state leds evs1) evs2.
Proof. apply foldl_app. Qed.

Lemma length_strip_state leds evs : length (strip_state leds evs) = length leds.
Proof.
  revert leds. induction evs as [|e evs IH]; intros leds; [done|].
  simpl. rewrite IH. destruct e; simpl; try done.
  case_decide; [apply length_insert|done].
Qed.

Lemma strip_state_untouched (ws : list (Z * color)) leds n :
  n ∉ ws.*1 → 0 ≤ n →
  strip_state leds (write <$> ws) !! Z.to_nat n = leds !! Z.to_nat n.
Proof.
  revert leds. induction ws as [|[k c] ws IH]; intros leds Hn Hpos; [done|].
  rewrite fmap_cons in Hn. apply not_elem_of_cons in Hn as [Hne Hn].
  simpl in *. rewrite IH by done.
  case_decide; [|done]. apply list_lookup_insert_ne. lia.
Qed.

Lemma strip_state_written (ws : list (Z * color)) leds n c :
  NoDup ws.*1 → (n, c) ∈ ws → 0 ≤ n → (Z.to_nat n < length leds)%nat →
  strip_state leds (write <$> ws) !! Z.to_nat n = Some c.
Proof.
  revert leds. induction ws as [|[k d] ws IH]; intros leds Hnd Hin Hpos Hlen.
  - by apply elem_of_nil in Hin.
  - rewrite fmap_cons in Hnd. apply NoDup_cons in Hnd as [Hk Hnd].
    apply elem_of_cons in Hin as [Heq|Hin]; simpl in *.
    + simplify_eq. rewrite strip_state_untouched by done.
      rewrite decide_True by done. by apply list_lookup_insert_eq.
    + apply IH; [done..|]. case_decide; [by rewrite length_insert|done].
Qed.

Lemma emitted_emits c evs w : emits c evs → emitted c w = evs.
Proof.
  intros H. unfold emitted. rewrite H. simpl. by rewrite drop_app_length.
Qed.

(** ** The serpentine mapping of display_image *)

Lemma covers_image_1x1 : covers image_1x1 one_by_one.
Proof.
  intros row col Hrow Hcol. simpl in *.
  assert (row = 0) as -> by lia. assert (col = 0) as -> by lia. by eexists.
Qed.

Lemma covers_image_2x3 : covers image_2x3 two_by_three.
Proof.
  intros row col Hrow Hcol. simpl in *.
  assert (row = 0 ∨ row = 1) as [-> | ->] by lia;
    (assert (col = 0 ∨ col = 1 ∨ col = 2) as [-> | [-> | ->]] by lia); by eexists.
Qed.

(** C1: for a matrix with positive rows and cols, the set-pixel call
    that display_image makes for the logical coordinate (row, col), the
    (row*cols + col)-th of its frame pass, addresses row*cols + col when
    row is even and row*cols + (cols - 1 - col) when row is odd; a 1x1
    matrix addresses index 0 only. *)
Theorem display_image_serpentine self image_array w row col :
  0 < rows self → 0 < cols self → led_count self = rows self * cols self →
  covers image_array self →
  0 ≤ row < rows self → 0 ≤ col < cols self →
  ∃ frame : list (Z * color),
    display_image self image_array w
    = (Ok tt, record (clear_events self ++ (write <$> frame)
                      ++ [StripShow; Printed MsgDisplayed]) w)
    ∧ (∃ c, frame !! Z.to_nat (row * cols self + col)
            = Some (if Z.even row then row * cols self + col
                    else row * cols self + (cols self - 1 - col), c))
    ∧ (rows self = 1 → cols self = 1 → frame.*1 = [0]).
Proof.
  intros Hr Hc Hcount Hcov Hrow Hcol.
  exists (frame_writes self image_array). split_and!.
  - by apply display_image_emits.
  - eexists. rewrite lookup_frame_writes by done.
    unfold physical_index. by destruct (Z.even row).
  - intros H1 H2. unfold frame_writes. by rewrite H1, H2.
Qed.

Lemma display_image_serpentine_witness :
  covers image_2x3 two_by_three ∧
  ∃ frame : list (Z * color),
    display_image two_by_three image_2x3 fresh
    = (Ok tt, record (clear_events two_by_three ++ (write <$> frame)
                      ++ [StripShow; Printed MsgDisplayed]) fresh)
    ∧ (∃ c, frame !! Z.to_nat (1 * 3 + 0) = Some (1 * 3 + (3 - 1 - 0), c))
    ∧ (2 = 1 → 3 = 1 → frame.*1 = [0]).
Proof.
  split; [apply covers_image_2x3|].
  apply (display_image_serpentine two_by_three image_2x3 fresh 1 0);
    simpl; first [lia | apply covers_image_2x3].
Defined.

(** C2, as stated, fails: display_image first calls clear_matrix, so on
    a 1x1 matrix element 0 is written twice and show is called twice. *)
Lemma display_image_not_once :
  ¬ (∀ self image_array w,
       geometry self → covers image_array self →
       let evs := emitted (display_image self image_array) w in
       (∀ n, 0 ≤ n < rows self * cols self → writes_to n evs = 1%nat)
       ∧ shows evs = 1%nat).
Proof.
  intros H.
  destruct (H one_by_one image_1x1 fresh) as [_ Hshows].
  - unfold geometry. simpl. lia.
  - apply covers_image_1x1.
  - vm_compute in Hshows. discriminate.
Qed.

(** C2, amended: display_image makes the calls of clear_matrix (every
    element set to black once, in index order, then one show), then one
    set-pixel call per element in row-major logical order, then one
    show.  Each element is written exactly twice and show is called
    exactly twice, the second time after all writes. *)
Theorem display_image_calls self image_array w :
  geometry self → covers image_array self →
  ∃ frame : list (Z * color),
    display_image self image_array w
    = (Ok tt, record (clear_events self ++ (write <$> frame)
                      ++ [StripShow; Printed MsgDisplayed]) w)
    ∧ length frame = Z.to_nat (rows self * cols self)
    ∧ (∀ row col p,
         0 ≤ row < rows self → 0 ≤ col < cols self →
         pixel_at image_array row col = Some p →
         frame !! Z.to_nat (row * cols self + col)
         = Some (physical_index (cols self) row col, clamped p))
    ∧ (∀ n, 0 ≤ n < rows self * cols self →
         writes_to n (clear_events self) = 1%nat
         ∧ writes_to n (write <$> frame) = 1%nat
         ∧ writes_to n (emitted (display_image self image_array) w) = 2%nat)
    ∧ shows (clear_events self) = 1%nat
    ∧ shows (emitted (display_image self image_array) w) = 2%nat.
Proof.
  intros Hgeo Hcov. exists (frame_writes self image_array).
  pose proof (display_image_emits self image_array Hcov) as Hrun.
  assert (∀ n, 0 ≤ n < rows self * cols self →
            writes_to n (write <$> frame_writes self image_array) = 1%nat) as Hframe.
  { intros n Hn. apply writes_to_once.
    - apply NoDup_frame_targets.
    - by apply frame_targets_all. }
  split_and!.
  - apply Hrun.
  - by apply length_frame_writes.
  - intros row col p Hrow Hcol Hp. rewrite lookup_frame_writes by done.
    by rewrite Hp.
  - intros n Hn. destruct Hgeo as (_ & _ & Hcount). split_and!.
    + apply writes_to_clear_events. lia.
    + by apply Hframe.
    + rewrite (emitted_emits _ _ w Hrun), !writes_to_app.
      rewrite writes_to_clear_events, Hframe by lia. done.
  - apply shows_clear_events.
  - rewrite (emitted_emits _ _ w Hrun), !shows_app.
    by rewrite shows_clear_events, shows_writes.
Qed.

Lemma display_image_calls_witness :
  geometry two_by_three ∧ covers image_2x3 two_by_three ∧
  writes_to 5 (emitted (display_image two_by_three image_2x3) fresh) = 2%nat ∧
  shows (emitted (display_image two_by_three image_2x3) fresh) = 2%nat.
Proof.
  assert (geometry two_by_three) as Hgeo by (unfold geometry; simpl; lia).
  destruct (display_image_calls two_by_three image_2x3 fresh Hgeo covers_image_2x3)
    as (frame & _ & _ & _ & Hwrites & _ & Hshows).
  split_and!; [done | apply covers_image_2x3 | | done].
  apply Hwrites. simpl. lia.
Defined.

(** C8: after display_image on an image that covers the matrix, a
    recording driver whose buffer holds led_count elements has, at the
    physical index of every logical pixel, that pixel's RGB triple with
    each channel clamped to [0,255]. *)
Theorem display_image_round_trip self image_array w leds row col r g b :
  geometry self → covers image_array self →
  length leds = Z.to_nat (led_count self) →
  0 ≤ row < rows self → 0 ≤ col < cols self →
  pixel_at image_array row col = Some (r, g, b) →
  display_image self image_array w
  = (Ok tt, record (emitted (display_image self image_array) w) w)
  ∧ strip_state leds (emitted (display_image self image_array) w)
      !! Z.to_nat (physical_index (cols self) row col)
    = Some (Color (Z.max 0 (Z.min 255 r)) (Z.max 0 (Z.min 255 g))
              (Z.max 0 (Z.min 255 b))).
Proof.
  intros Hgeo Hcov Hlen Hrow Hcol Hp.
  pose proof (display_image_emits self image_array Hcov) as Hrun.
  rewrite (emitted_emits _ _ w Hrun). split; [apply Hrun|].
  rewrite !strip_state_app. simpl.
  pose proof (physical_index_bounds (cols self) row col Hcol) as Hb.
  destruct Hgeo as (Hr & Hc & Hcount).
  rewrite (strip_state_written _ _ _ (clamped (r, g, b)));
    [| apply NoDup_frame_targets | | nia |].
  - f_equal. unfold clamped, clip. f_equal; lia.
  - apply list_elem_of_lookup. exists (Z.to_nat (row * cols self + col)).
    rewrite lookup_frame_writes by done. by rewrite Hp.
  - rewrite length_strip_state, Hlen, Hcount. nia.
Qed.

Lemma display_image_round_trip_witness :
  strip_state (replicate 6 (Color 9 9 9))
    (emitted (display_image two_by_three image_2x3) fresh) !! 5%nat
  = Some (Color 255 0 128).
Proof.
  assert (geometry two_by_three) as Hgeo by (unfold geometry; simpl; lia).
  apply (display_image_round_trip two_by_three image_2x3 fresh
           (replicate 6 (Color 9 9 9)) 1 0 256 (-1) 128 Hgeo covers_image_2x3);
    first [reflexivity | simpl; lia].
Defined.

(** ** The colour wheel and the rainbow sweep *)

(** C4, as stated, fails: the wheel is not the red-to-green,
    green-to-blue, blue-to-red ramp described.  At position 100, inside
    the segment described as green to blue, the green channel is 0 and
    the red channel is 210. *)
Lemma wheel_not_as_described :
  wheel 100 = Color 210 0 45 ∧ described_wheel 100 = Color 0 210 45 ∧
  ¬ (∀ pos, 0 ≤ pos ≤ 255 → wheel pos = described_wheel pos).
Proof.
  split_and!; [done..|]. intros H. specialize (H 100). vm_compute in H.
  assert (0 ≤ 100 ≤ 255) as Hr by lia. by specialize (H Hr).
Qed.

(** C4, amended: wheel is a function of the position alone, made of
    three linear ramps of slope 3.  On 0..84 it runs from green
    (0,255,0) towards red: red rises and green falls by 3 per step, blue
    is 0.  On 85..169 it runs from red (255,0,0) towards blue: blue
    rises and red falls by 3 per step, green is 0.  On 170..255 it runs
    from blue (0,0,255) to green (0,255,0): green rises and blue falls
    by 3 per step, red is 0. *)
Theorem wheel_segments pos :
  0 ≤ pos ≤ 255 →
  (pos ≤ 84 →
     wheel pos = Color (3 * pos) (255 - 3 * pos) 0)
  ∧ (85 ≤ pos ≤ 169 →
     wheel pos = Color (255 - 3 * (pos - 85)) 0 (3 * (pos - 85)))
  ∧ (170 ≤ pos →
     wheel pos = Color 0 (3 * (pos - 170)) (255 - 3 * (pos - 170)))
  ∧ wheel 0 = Color 0 255 0 ∧ wheel 85 = Color 255 0 0
  ∧ wheel 170 = Color 0 0 255 ∧ wheel 255 = Color 0 255 0.
Proof.
  intros Hpos. unfold wheel. split_and!; try done.
  - intros H. rewrite decide_True by lia. f_equal; lia.
  - intros H. rewrite decide_False, decide_True by lia. simpl. f_equal; lia.
  - intros H. rewrite !decide_False by lia. simpl. f_equal; lia.
Qed.

Lemma wheel_segments_witness :
  wheel 100 = Color (255 - 3 * (100 - 85)) 0 (3 * (100 - 85)).
Proof.
  assert (0 ≤ 100 ≤ 255) as Hr by lia.
  apply (wheel_segments 100 Hr). lia.
Defined.





(** ** The read loop always ends *)

Lemma tame_ret {A} (a : A) : tame (mret a).
Proof. by intros w. Qed.

Lemma tame_raise {A} e : tame (@raise A e).
Proof. by intros w. Qed.

Lemma tame_bind {A B} (m : M A) (f : A → M B) :
  tame m → (∀ a, tame (f a)) → tame (m ≫= f).
Proof.
  intros Hm Hf w. unfold mbind, M_bind.
  destruct (Hm w) as (Hr & Hs & Hc & Hk).
  destruct (m w) as [[a|e|] w1]; simpl in *; [|done..].
  destruct (Hf a w1) as (Hr' & Hs' & Hc' & Hk'). split_and!; [done|lia|auto..].
Qed.

Lemma tame_emits c evs : emits c evs → tame c.
Proof. intros H w. by rewrite H. Qed.

Lemma tame_for {X} (xs : list X) (body : X → M unit) :
  (∀ x, tame (body x)) → tame (for_ xs body).
Proof.
  intros Hbody. induction xs as [|x xs IH]; simpl.
  - apply tame_ret.
  - apply tame_bind; [apply Hbody|by intros _].
Qed.

Lemma tame_display_image self image_array : tame (display_image self image_array).
Proof.
  unfold display_image.
  apply tame_bind; [apply (tame_emits _ _ (clear_matrix_emits self))|intros _].
  apply tame_bind; [|intros _; apply (tame_emits _ _ (emits_pair _ _))].
  apply tame_for. intros row. apply tame_for. intros col.
  apply tame_bind.
  - unfold image_at. destruct (pixel_at _ _ _); [apply tame_ret|apply tame_raise].
  - intros [[r g] b]. apply (tame_emits _ _ (emits_emit _)).
Qed.

Lemma tame_time_sleep ms : tame (time_sleep ms).
Proof.
  unfold time_sleep. case_decide;
    [apply tame_raise|apply (tame_emits _ _ (emits_emit _))].
Qed.

Lemma tame_rainbow_sweep self delay_ms : tame (rainbow_sweep self delay_ms).
Proof.
  unfold rainbow_sweep.
  apply tame_bind; [|intros _; apply (tame_emits _ _ (emits_emit _))].
  apply tame_for. intros j.
  apply tame_bind;
    [|intros _; apply tame_bind;
        [apply (tame_emits _ _ (emits_emit _))|intros _; apply tame_time_sleep]].
  apply tame_for. intros i. apply tame_bind.
  - unfold divmod. case_decide; [apply tame_raise|apply tame_ret].
  - intros [row col]. apply (tame_emits _ _ (emits_emit _)).
Qed.

Lemma tame_led_matrix_attr : tame led_matrix_attr.
Proof.
  intros w. unfold led_matrix_attr.
  destruct (led_matrix w) eqn:Hlm; simpl; rewrite ?Hlm; done.
Qed.

Lemma tame_run_test_pattern pattern_name : tame (run_test_pattern pattern_name).
Proof.
  unfold run_test_pattern. apply tame_bind; [apply (tame_emits _ _ (emits_emit _))|intros _].
  repeat case_decide.
  - apply tame_bind; [apply tame_led_matrix_attr|intros m].
    apply (tame_emits _ _ (test_pattern_emits m _)).
  - apply tame_bind; [apply tame_led_matrix_attr|intros m].
    apply tame_rainbow_sweep.
  - apply (tame_emits _ _ (emits_emit _)).
Qed.

Lemma recv_world bufsize w :
  ∃ c, (recv bufsize w).2 = set_conn c w
       ∧ (stream_size c ≤ stream_size (conn w))%nat.
Proof.
  unfold recv. destruct (conn w) as [|[bs|] rest] eqn:Hconn; simpl.
  - exists []. split; [|simpl; lia]. destruct w; simpl in *. by subst.
  - eexists. split; [done|].
    destruct (drop (Z.to_nat bufsize) bs) as [|b unread] eqn:Hdrop; simpl; [lia|].
    assert (length (b :: unread) ≤ length bs)%nat as Hlen
      by (rewrite <- Hdrop, length_drop; lia).
    simpl in Hlen. lia.
  - eexists. split; [done|]. lia.
Qed.

Lemma recv_shrinks bufsize w b header :
  (recv bufsize w).1 = Ok (b :: header) →
  (stream_size (conn (recv bufsize w).2) < stream_size (conn w))%nat.
Proof.
  unfold recv. destruct (conn w) as [|[bs|] rest]; simpl; [done| |done].
  intros Htake. simplify_eq.
  assert (Z.to_nat bufsize ≠ 0%nat ∧ bs ≠ []) as [Hn Hbs].
  { split; intros Hz; rewrite Hz in Htake; [done|]. by rewrite take_nil in Htake. }
  destruct (drop (Z.to_nat bufsize) bs) as [|c unread] eqn:Hdrop; simpl; [lia|].
  assert (length (c :: unread) < length bs)%nat as Hlen.
  { rewrite <- Hdrop, length_drop. destruct bs; [done|simpl; lia]. }
  simpl in Hlen. lia.
Qed.

Lemma tame_recv bufsize : tame (recv bufsize).
Proof.
  intros w. destruct (recv_world bufsize w) as (c & Hw & Hsize).
  rewrite Hw. split_and!; [|done..].
  unfold recv. by destruct (conn w) as [|[bs|] rest].
Qed.

Lemma tame_handle_message message_type data_length :
  tame (handle_message message_type data_length).
Proof.
  unfold handle_message.
  destruct (decide (message_type = 0)) as [_|_];
    [|destruct (decide (message_type = 1)) as [_|_];
      [|destruct (decide (message_type = 2)) as [_|_]]].
  - apply tame_bind; [apply tame_recv|intros buffer].
    apply tame_bind.
    { unfold unpack_I. destruct buffer as [|? [|? [|? [|? [|? ?]]]]];
        first [apply tame_raise | apply tame_ret]. }
    intros cols. apply tame_bind; [apply (tame_emits _ _ (emits_emit _))|intros _].
    intros w. unfold mbind, M_bind, LEDMatrix_init, set_led_matrix.
    destruct (hw_ok w (data_length * cols)); simpl; [|done].
    split_and!; [done..| |by eexists]. intros _ m Hm. simpl in Hm. by simplify_eq.
  - apply tame_bind; [apply (tame_emits _ _ (emits_emit _))|intros _].
    apply tame_bind; [apply tame_recv|intros flat].
    apply tame_bind; [apply tame_led_matrix_attr|intros m].
    apply tame_bind; [|intros image_array; apply tame_display_image].
    unfold frombuffer_reshape. case_decide; [apply tame_ret|apply tame_raise].
  - apply tame_bind; [apply (tame_emits _ _ (emits_emit _))|intros _].
    repeat case_decide;
      first [apply tame_run_test_pattern | apply (tame_emits _ _ (emits_emit _))].
  - apply tame_ret.
Qed.

Lemma unpack_II_world buffer w : (unpack_II buffer w).2 = w.
Proof.
  unfold unpack_II.
  by destruct buffer as [|? [|? [|? [|? [|? [|? [|? [|? [|? ?]]]]]]]]].
Qed.

Lemma unpack_II_fuel buffer w : (unpack_II buffer w).1 ≠ OutOfFuel.
Proof.
  unfold unpack_II.
  by destruct buffer as [|? [|? [|? [|? [|? [|? [|? [|? [|? ?]]]]]]]]].
Qed.

Lemma unpack_I_world buffer w : (unpack_I buffer w).2 = w.
Proof.
  unfold unpack_I. by destruct buffer as [|? [|? [|? [|? [|? ?]]]]].
Qed.

(** One turn of the read loop, spelled out. *)
Lemma read_loop_S fuel w :
  read_loop (S fuel) w
  = match recv 8 w with
    | (Ok [], w1) => (Ok tt, w1)
    | (Ok header, w1) =>
        match unpack_II header w1 with
        | (Ok (message_type, data_length), w2) =>
            match handle_message message_type data_length w2 with
            | (Ok _, w3) => read_loop fuel w3
            | (Raise e, w3) => (Raise e, w3)
            | (OutOfFuel, w3) => (OutOfFuel, w3)
            end
        | (Raise e, w2) => (Raise e, w2)
        | (OutOfFuel, w2) => (OutOfFuel, w2)
        end
    | (Raise e, w1) => (Raise e, w1)
    | (OutOfFuel, w1) => (OutOfFuel, w1)
    end.
Proof.
  cbn [read_loop]. unfold mbind, M_bind.
  destruct (recv 8 w) as [[[|b header]|e|] w1]; try reflexivity.
  destruct (unpack_II (b :: header) w1) as [[[message_type data_length]|e|] w2];
    reflexivity.
Qed.

Lemma read_loop_tame fuel w :
  (stream_size (conn w) < fuel)%nat →
  (read_loop fuel w).1 ≠ OutOfFuel
  ∧ (counted w → counted (read_loop fuel w).2)
  ∧ (is_Some (led_matrix w) → is_Some (led_matrix (read_loop fuel w).2)).
Proof.
  revert w. induction fuel as [|fuel IH]; intros w Hfuel; [lia|].
  rewrite read_loop_S.
  destruct (tame_recv 8 w) as (Hr & Hs & Hc & Hk).
  pose proof (recv_shrinks 8 w) as Hshrink.
  destruct (recv 8 w) as [[[|b header]|e|] w1]; cbn [fst snd] in *; [done| |done..].
  specialize (Hshrink b header eq_refl).
  pose proof (unpack_II_world (b :: header) w1) as Hw.
  pose proof (unpack_II_fuel (b :: header) w1) as Hf.
  destruct (unpack_II (b :: header) w1) as [[[message_type data_length]|e|] w2];
    cbn [fst snd] in *; subst w2; [| by auto | done].
  destruct (tame_handle_message message_type data_length w1) as (Hr' & Hs' & Hc' & Hk').
  destruct (handle_message message_type data_length w1) as [[[]|e|] w3];
    cbn [fst snd] in *; [|by auto|done].
  destruct (IH w3) as (Hr'' & Hc'' & Hk''); [lia|]. split_and!; [done|auto..].
Qed.

(** ** One connection, from accept to close *)

Lemma cleanup_emits w :
  cleanup w = (Ok tt, record (cleanup_events (led_matrix w)) w).
Proof.
  unfold cleanup, cleanup_events.
  destruct (led_matrix w) as [self|] eqn:Hlm.
  - erewrite bind_ok; [|rewrite Hlm; apply clear_matrix_emits].
    by rewrite (emits_pair ConnClose (Printed MsgConnectionClosed)), record_app.
  - erewrite bind_ok; [|by rewrite Hlm].
    by rewrite (emits_pair ConnClose (Printed MsgConnectionClosed)).
Qed.

Lemma serve_connection_run w :
  (read_loop (S (stream_size (conn w))) w).1 ≠ OutOfFuel
  ∧ serve_connection w
    = (Ok tt,
       record (report (read_loop (S (stream_size (conn w))) w).1
               ++ cleanup_events (led_matrix (read_loop (S (stream_size (conn w))) w).2))
         (read_loop (S (stream_size (conn w))) w).2).
Proof.
  destruct (read_loop_tame (S (stream_size (conn w))) w) as (Hfuel & _); [lia|].
  split; [done|]. unfold serve_connection, try_except_finally.
  destruct (read_loop (S (stream_size (conn w))) w) as [[[]|e|] w1];
    cbn [fst snd report] in *; [| |done].
  - apply cleanup_emits.
  - unfold print, emit. by rewrite cleanup_emits, record_app.
Qed.

Lemma serve_connection_raise w e w1 :
  read_loop (S (stream_size (conn w))) w = (Raise e, w1) →
  serve_connection w
  = (Ok tt, record (Printed (MsgConnectionError e) :: cleanup_events (led_matrix w1)) w1).
Proof.
  intros H. destruct (serve_connection_run w) as [_ Hrun].
  by rewrite H in Hrun.
Qed.

Lemma recv_keeps bufsize w r w1 :
  recv bufsize w = (r, w1) →
  led_matrix w1 = led_matrix w ∧ events w1 = events w ∧ hw_ok w1 = hw_ok w.
Proof.
  intros H. destruct (recv_world bufsize w) as (c & Hw1 & _).
  rewrite H in Hw1. simpl in Hw1. by subst w1.
Qed.

Lemma builds_nothing_ret {A} (a : A) : builds_nothing (mret a).
Proof. intros w. split; [done|]. exists []. by rewrite app_nil_r. Qed.

Lemma builds_nothing_raise {A} e : builds_nothing (@raise A e).
Proof. intros w. split; [done|]. exists []. by rewrite app_nil_r. Qed.

Lemma builds_nothing_bind {A B} (m : M A) (f : A → M B) :
  builds_nothing m → (∀ a, builds_nothing (f a)) → builds_nothing (m ≫= f).
Proof.
  intros Hm Hf w. unfold mbind, M_bind.
  destruct (Hm w) as (Hlm & evs & Hev & Hno).
  destruct (m w) as [[a|e|] w1]; cbn [fst snd] in *;
    [|split; [done|exists evs; by split]..].
  destruct (Hf a w1) as (Hlm' & evs' & Hev' & Hno').
  split; [congruence|]. exists (evs ++ evs'). split.
  - rewrite Hev', Hev. by rewrite <- app_assoc.
  - by apply Forall_app.
Qed.

Lemma builds_nothing_emit e : starts_strip e = false → builds_nothing (emit e).
Proof.
  intros He w. split; [done|]. exists [e]. split; [done|].
  by apply Forall_singleton.
Qed.

Lemma builds_nothing_for {X} (xs : list X) (body : X → M unit) :
  (∀ x, builds_nothing (body x)) → builds_nothing (for_ xs body).
Proof.
  intros Hbody. induction xs as [|x xs IH]; simpl.
  - apply builds_nothing_ret.
  - apply builds_nothing_bind; [apply Hbody|by intros _].
Qed.

Lemma builds_nothing_recv bufsize : builds_nothing (recv bufsize).
Proof.
  intros w. destruct (recv_world bufsize w) as (c & -> & _).
  split; [done|]. exists []. by rewrite app_nil_r.
Qed.

Lemma builds_nothing_led_matrix_attr : builds_nothing led_matrix_attr.
Proof.
  intros w. unfold led_matrix_attr.
  destruct (led_matrix w) eqn:Hlm; simpl; rewrite ?Hlm;
    (split; [done|]); exists []; by rewrite app_nil_r.
Qed.

Lemma builds_nothing_time_sleep ms : builds_nothing (time_sleep ms).
Proof.
  unfold time_sleep. case_decide;
    [apply builds_nothing_raise|by apply builds_nothing_emit].
Qed.

Lemma builds_nothing_clear_matrix self : builds_nothing (clear_matrix self).
Proof.
  unfold clear_matrix. apply builds_nothing_bind; [|intros _].
  - apply builds_nothing_for. intros i. by apply builds_nothing_emit.
  - apply builds_nothing_bind;
      [by apply builds_nothing_emit|intros _; by apply builds_nothing_emit].
Qed.

Lemma builds_nothing_display_image self image_array :
  builds_nothing (display_image self image_array).
Proof.
  unfold display_image.
  apply builds_nothing_bind; [apply builds_nothing_clear_matrix|intros _].
  apply builds_nothing_bind.
  - apply builds_nothing_for. intros row. apply builds_nothing_for. intros col.
    apply builds_nothing_bind.
    + unfold image_at.
      destruct (pixel_at _ _ _); [apply builds_nothing_ret|apply builds_nothing_raise].
    + intros [[r g] b]. by apply builds_nothing_emit.
  - intros _. apply builds_nothing_bind;
      [by apply builds_nothing_emit|intros _; by apply builds_nothing_emit].
Qed.

Lemma builds_nothing_test_pattern self color_sequence :
  builds_nothing (test_pattern self color_sequence).
Proof.
  unfold test_pattern.
  apply builds_nothing_bind; [|intros _; by apply builds_nothing_emit].
  apply builds_nothing_for. intros color. apply builds_nothing_bind.
  - apply builds_nothing_for. intros i. by apply builds_nothing_emit.
  - intros _. apply builds_nothing_bind;
      [by apply builds_nothing_emit|intros _; apply builds_nothing_time_sleep].
Qed.

Lemma builds_nothing_rainbow_sweep self delay_ms :
  builds_nothing (rainbow_sweep self delay_ms).
Proof.
  unfold rainbow_sweep.
  apply builds_nothing_bind; [|intros _; by apply builds_nothing_emit].
  apply builds_nothing_for. intros j. apply builds_nothing_bind.
  - apply builds_nothing_for. intros i. apply builds_nothing_bind.
    + unfold divmod. case_decide; [apply builds_nothing_raise|apply builds_nothing_ret].
    + intros [row col]. by apply builds_nothing_emit.
  - intros _. apply builds_nothing_bind;
      [by apply builds_nothing_emit|intros _; apply builds_nothing_time_sleep].
Qed.

Lemma builds_nothing_run_test_pattern pattern_name :
  builds_nothing (run_test_pattern pattern_name).
Proof.
  unfold run_test_pattern.
  apply builds_nothing_bind; [by apply builds_nothing_emit|intros _].
  repeat case_decide.
  - apply builds_nothing_bind; [apply builds_nothing_led_matrix_attr|intros m].
    apply builds_nothing_test_pattern.
  - apply builds_nothing_bind; [apply builds_nothing_led_matrix_attr|intros m].
    apply builds_nothing_rainbow_sweep.
  - by apply builds_nothing_emit.
Qed.

Lemma builds_nothing_handle_message message_type data_length :
  message_type ≠ 0 → builds_nothing (handle_message message_type data_length).
Proof.
  intros Hne. unfold handle_message. rewrite decide_False by done.
  destruct (decide (message_type = 1)) as [_|_];
    [|destruct (decide (message_type = 2)) as [_|_]].
  - apply builds_nothing_bind; [by apply builds_nothing_emit|intros _].
    apply builds_nothing_bind; [apply builds_nothing_recv|intros flat].
    apply builds_nothing_bind; [apply builds_nothing_led_matrix_attr|intros m].
    apply builds_nothing_bind; [|intros image_array; apply builds_nothing_display_image].
    unfold frombuffer_reshape.
    case_decide; [apply builds_nothing_ret|apply builds_nothing_raise].
  - apply builds_nothing_bind; [by apply builds_nothing_emit|intros _].
    repeat case_decide;
      first [apply builds_nothing_run_test_pattern | by apply builds_nothing_emit].
  - apply builds_nothing_ret.
Qed.

Lemma configured_since_refl w w' :
  led_matrix w' = led_matrix w → events w' = events w → configured_since w w'.
Proof.
  intros Hlm Hev. exists []. split; [by rewrite app_nil_r|].
  intros Hnone. split; [congruence|constructor].
Qed.

Lemma configured_since_trans w1 w2 w3 :
  configured_since w1 w2 → configured_since w2 w3 → configured_since w1 w3.
Proof.
  intros (e1 & Hev1 & H1) (e2 & Hev2 & H2). exists (e1 ++ e2). split.
  - rewrite Hev2, Hev1. by rewrite <- app_assoc.
  - intros Hnone. destruct (H2 Hnone) as [Hnone2 Hno2].
    destruct (H1 Hnone2) as [Hnone1 Hno1]. split; [done|by apply Forall_app].
Qed.

Lemma builds_nothing_since {A} (c : M A) w :
  builds_nothing c → configured_since w (c w).2.
Proof.
  intros Hc. destruct (Hc w) as (Hlm & evs & Hev & Hno).
  exists evs. split; [done|]. intros Hnone. split; [congruence|done].
Qed.

Lemma handle_message_since message_type data_length w :
  configured_since w (handle_message message_type data_length w).2.
Proof.
  destruct (decide (message_type = 0)) as [->|Hne];
    [|by apply builds_nothing_since, builds_nothing_handle_message].
  unfold handle_message. rewrite decide_True by done. unfold mbind, M_bind.
  destruct (recv 4 w) as [[buffer|e1|] w1] eqn:Hrecv;
    destruct (recv_keeps _ _ _ _ Hrecv) as (Hlm1 & Hev1 & Hhw1); cbn [snd];
    [|by apply configured_since_refl..].
  pose proof (unpack_I_world buffer w1) as Hw2.
  destruct (unpack_I buffer w1) as [[cols|e2|] w2];
    cbn [snd] in Hw2 |- *; subst w2; [|by apply configured_since_refl..].
  unfold print, emit, LEDMatrix_init, set_led_matrix. cbn.
  destruct (hw_ok w1 (data_length * cols)); cbn.
  - exists [Printed (MsgInitializing data_length cols);
            StripBegin (data_length * cols)].
    simpl. split; [by rewrite Hev1, <- app_assoc|]. by intros.
  - exists [Printed (MsgInitializing data_length cols)].
    simpl. split; [by rewrite Hev1|]. intros Hnone.
    split; [congruence|]. by apply Forall_singleton.
Qed.

Lemma read_loop_since fuel w : configured_since w (read_loop fuel w).2.
Proof.
  revert w. induction fuel as [|fuel IH]; intros w.
  { by apply configured_since_refl. }
  rewrite read_loop_S.
  destruct (recv 8 w) as [[[|b header]|e|] w1] eqn:Hrecv;
    destruct (recv_keeps _ _ _ _ Hrecv) as (Hlm1 & Hev1 & Hhw1); cbn [snd];
    try (by apply configured_since_refl).
  pose proof (unpack_II_world (b :: header) w1) as Hw2.
  destruct (unpack_II (b :: header) w1) as [[[message_type data_length]|e|] w2];
    cbn [snd] in Hw2 |- *; subst w2; try (by apply configured_since_refl).
  apply (configured_since_trans _ w1); [by apply configured_since_refl|].
  pose proof (handle_message_since message_type data_length w1) as Hmsg.
  destruct (handle_message message_type data_length w1) as [[[]|e|] w3];
    cbn [snd] in *; [|done..].
  by apply (configured_since_trans _ w3).
Qed.

Lemma recv_same_conn bufsize w w' :
  conn w' = conn w →
  (recv bufsize w').1 = (recv bufsize w).1
  ∧ (recv bufsize w').2 = set_conn (conn (recv bufsize w).2) w'.
Proof.
  intros Hconn. unfold recv. rewrite Hconn.
  destruct (conn w) as [|[bs|] rest] eqn:Hc; simpl; split; try done.
  rewrite Hc. destruct w'. unfold set_conn. simpl in *. by subst.
Qed.

Lemma handle_setup_ok rows w buffer w1 cols :
  recv 4 w = (Ok buffer, w1) → unpack_I buffer w1 = (Ok cols, w1) →
  hw_ok w (rows * cols) = true →
  handle_message 0 rows w
  = (Ok tt,
     {| conn := conn w1;
        led_matrix := Some (MkLEDMatrix rows cols (rows * cols));
        events := events w ++ [Printed (MsgInitializing rows cols);
                               StripBegin (rows * cols)];
        hw_ok := hw_ok w |}).
Proof.
  intros Hrecv Hun Hhw.
  destruct (recv_keeps _ _ _ _ Hrecv) as (Hlm1 & Hev1 & Hhw1).
  unfold handle_message. rewrite decide_True by done.
  erewrite bind_ok by apply Hrecv. erewrite bind_ok by apply Hun.
  erewrite bind_ok by apply emits_print.
  erewrite bind_ok; [|unfold LEDMatrix_init; simpl; by rewrite Hhw1, Hhw].
  unfold set_led_matrix. simpl. by rewrite Hev1, Hhw1, <- app_assoc.
Qed.

(** C7: a zero-byte header read ends the read loop normally, with no
    call made and no error reported.  A matrix held before the
    connection, or set up by a Setup frame at any point of it, is still
    held however the loop ends, and the cleanup calls clear_matrix on
    the matrix held exactly once: the driver receives one (0,0,0) write
    for each of the rows*cols elements, in index order, followed by
    exactly one show; then the connection is closed.  In particular a
    Setup frame followed by the peer closing gives exactly the set-up
    calls, those rows*cols writes, one show and the close. *)
Theorem serve_connection_cleanup w :
  ((recv 8 w).1 = Ok [] →
     (∀ fuel, read_loop (S fuel) w = (Ok tt, (recv 8 w).2))
     ∧ events (recv 8 w).2 = events w
     ∧ serve_connection w
       = (Ok tt, record (cleanup_events (led_matrix w)) (recv 8 w).2))
  ∧ (counted w →
     ∃ r w1,
       read_loop (S (stream_size (conn w))) w = (r, w1) ∧ r ≠ OutOfFuel
       ∧ (is_Some (led_matrix w)
          ∨ (∃ n, StripBegin n ∈ emitted serve_connection w) →
          is_Some (led_matrix w1))
       ∧ serve_connection w
         = (Ok tt, record (report r ++ cleanup_events (led_matrix w1)) w1)
       ∧ ∀ self, led_matrix w1 = Some self →
           cleanup_events (led_matrix w1)
           = ((λ i, SetPixelColor i (Color 0 0 0)) <$> range (rows self * cols self))
             ++ [StripShow; Printed MsgCleared; ConnClose; Printed MsgConnectionClosed]
           ∧ shows (cleanup_events (led_matrix w1)) = 1%nat
           ∧ ∀ n, 0 ≤ n < rows self * cols self →
               writes_to n (cleanup_events (led_matrix w1)) = 1%nat)
  ∧ (∀ header rows w1 buffer cols w2,
       recv 8 w = (Ok header, w1) → header ≠ [] →
       unpack_II header w1 = (Ok (0, rows), w1) →
       recv 4 w1 = (Ok buffer, w2) → unpack_I buffer w2 = (Ok cols, w2) →
       hw_ok w (rows * cols) = true →
       StripBegin (rows * cols) ∈ emitted serve_connection w
       ∧ ((recv 8 w2).1 = Ok [] →
          (serve_connection w).1 = Ok tt
          ∧ led_matrix (serve_connection w).2
            = Some (MkLEDMatrix rows cols (rows * cols))
          ∧ emitted serve_connection w
            = [Printed (MsgInitializing rows cols); StripBegin (rows * cols)]
              ++ ((λ i, SetPixelColor i (Color 0 0 0)) <$> range (rows * cols))
              ++ [StripShow; Printed MsgCleared; ConnClose;
                  Printed MsgConnectionClosed])).
Proof.
  split_and!.
  - intros Hrecv.
    assert (∀ fuel, read_loop (S fuel) w = (Ok tt, (recv 8 w).2)) as Hloop.
    { intros fuel. rewrite read_loop_S.
      destruct (recv 8 w) as [r w1]. simpl in *. by subst r. }
    destruct (recv_world 8 w) as (c & Hw1 & _).
    split_and!; [done|by rewrite Hw1|].
    destruct (serve_connection_run w) as [_ Hrun].
    rewrite Hloop in Hrun. cbn [fst snd report] in Hrun.
    rewrite Hrun. by rewrite Hw1.
  - intros Hcounted.
    destruct (serve_connection_run w) as [Hfuel Hrun].
    destruct (read_loop_tame (S (stream_size (conn w))) w) as (_ & Hc & Hk); [lia|].
    specialize (Hc Hcounted).
    destruct (read_loop_since (S (stream_size (conn w))) w) as (evs & Hev & Hsince).
    destruct (read_loop (S (stream_size (conn w))) w) as [r w1].
    cbn [fst snd] in *. exists r, w1. split_and!; [done..| |done|].
    + intros [Hheld|[n Hbegin]]; [by apply Hk|].
      destruct (led_matrix w1) as [self|] eqn:Hlm; [by eexists|].
      destruct (Hsince eq_refl) as [_ Hno]. exfalso.
      unfold emitted in Hbegin. rewrite Hrun in Hbegin. simpl in Hbegin.
      rewrite Hev, <- !app_assoc, drop_app_length in Hbegin.
      apply elem_of_app in Hbegin as [Hbegin|Hbegin].
      * rewrite Forall_forall in Hno. by specialize (Hno _ Hbegin).
      * apply elem_of_app in Hbegin as [Hbegin|Hbegin].
        -- destruct r as [[]|e|]; simpl in Hbegin;
             [by apply elem_of_nil in Hbegin| |by apply elem_of_nil in Hbegin].
           by apply list_elem_of_singleton in Hbegin.
        -- unfold cleanup_events in Hbegin. simpl in Hbegin.
           repeat (apply elem_of_cons in Hbegin as [Hbegin|Hbegin]; [done|]).
           by apply elem_of_nil in Hbegin.
    + intros self Hself. rewrite Hself. unfold cleanup_events.
      rewrite <- (Hc self Hself). split_and!.
      * unfold clear_events. by rewrite <- app_assoc.
      * by rewrite shows_app, shows_clear_events.
      * intros n Hn. by rewrite writes_to_app, writes_to_clear_events.
  - intros header rows w1 buffer cols w2 Hrecv Hne Hun Hbuf Hcols Hhw.
    destruct (recv_keeps _ _ _ _ Hrecv) as (Hlm1 & Hev1 & Hhw1).
    destruct (recv_keeps _ _ _ _ Hbuf) as (Hlm2 & Hev2 & Hhw2).
    assert (hw_ok w1 (rows * cols) = true) as Hhw' by (by rewrite Hhw1).
    pose proof (handle_setup_ok rows w1 buffer w2 cols Hbuf Hcols Hhw') as Hmsg.
    set (w3 := {| conn := conn w2;
                  led_matrix := Some (MkLEDMatrix rows cols (rows * cols));
                  events := events w1 ++ [Printed (MsgInitializing rows cols);
                                          StripBegin (rows * cols)];
                  hw_ok := hw_ok w1 |}) in Hmsg.
    destruct header as [|b header]; [done|].
    assert (read_loop (S (stream_size (conn w))) w
            = read_loop (stream_size (conn w)) w3) as Hloop.
    { by rewrite read_loop_S, Hrecv, Hun, Hmsg. }
    destruct (serve_connection_run w) as [_ Hrun]. rewrite Hloop in Hrun.
    split.
    + destruct (read_loop_since (stream_size (conn w)) w3) as (evs & Hev & _).
      unfold emitted. rewrite Hrun. simpl. rewrite Hev. simpl.
      rewrite Hev1, <- !app_assoc, drop_app_length.
      apply elem_of_cons. right. apply elem_of_cons. by left.
    + intros Hclosed.
      pose proof (recv_shrinks 8 w b header) as Hshrink.
      rewrite Hrecv in Hshrink. specialize (Hshrink eq_refl). simpl in Hshrink.
      destruct (stream_size (conn w)) as [|fuel]; [lia|].
      destruct (recv_same_conn 8 w2 w3 eq_refl) as [Hr3 Hw3].
      assert (read_loop (S fuel) w3
              = (Ok tt, set_conn (conn (recv 8 w2).2) w3)) as Hend.
      { rewrite read_loop_S. destruct (recv 8 w3) as [r4 w4].
        simpl in Hr3, Hw3. rewrite Hr3, Hclosed, Hw3. done. }
      rewrite Hend in Hrun. cbn [fst snd report] in Hrun.
      unfold emitted. rewrite Hrun. split_and!; [done..|].
      simpl. rewrite Hev1, <- !app_assoc, drop_app_length.
      unfold cleanup_events, clear_events. simpl. by rewrite <- !app_assoc.
Qed.

Lemma counted_configured_two_by_two c : counted (configured two_by_two c).
Proof. intros m Hm. simpl in Hm. by simplify_eq. Qed.

Lemma serve_connection_cleanup_witness :
  (events (recv 8 (configured two_by_two [])).2 = []
   ∧ serve_connection (configured two_by_two [])
     = (Ok tt, record (cleanup_events (Some two_by_two)) (configured two_by_two [])))
  ∧ (∃ r w1,
      read_loop 1 (configured two_by_two []) = (r, w1)
      ∧ serve_connection (configured two_by_two [])
        = (Ok tt, record (report r ++ cleanup_events (led_matrix w1)) w1))
  ∧ emitted serve_connection (connected [Data (setup_frame 2 3)])
    = [Printed (MsgInitializing 2 3); StripBegin (2 * 3)]
      ++ ((λ i, SetPixelColor i (Color 0 0 0)) <$> range (2 * 3))
      ++ [StripShow; Printed MsgCleared; ConnClose; Printed MsgConnectionClosed].
Proof.
  split; [|split].
  - destruct (serve_connection_cleanup (configured two_by_two [])) as (Hclose & _).
    destruct (Hclose eq_refl) as (_ & Hevents & Hserve). by split.
  - destruct (serve_connection_cleanup (configured two_by_two [])) as (_ & Hany & _).
    destruct (Hany (counted_configured_two_by_two []))
      as (r & w1 & Hloop & _ & _ & Hserve & _).
    by exists r, w1.
  - destruct (serve_connection_cleanup (connected [Data (setup_frame 2 3)]))
      as (_ & _ & Hsetup).
    destruct (Hsetup (byte_of <$> [0; 0; 0; 0; 0; 0; 0; 2]) 2
                (connected [Data (byte_of <$> [0; 0; 0; 3])])
                (byte_of <$> [0; 0; 0; 3]) 3 (connected []))
      as [_ Hscenario]; [reflexivity | discriminate | reflexivity
                         | reflexivity | reflexivity | reflexivity |].
    destruct (Hscenario eq_refl) as (_ & _ & Hevents). exact Hevents.
Defined.

(** Scenario D of the specification, run: a Setup and then the peer
    closes. *)
Example setup_then_close :
  emitted serve_connection (connected [Data (setup_frame 2 2)])
  = [Printed (MsgInitializing 2 2); StripBegin 4;
     SetPixelColor 0 (Color 0 0 0); SetPixelColor 1 (Color 0 0 0);
     SetPixelColor 2 (Color 0 0 0); SetPixelColor 3 (Color 0 0 0);
     StripShow; Printed MsgCleared; ConnClose; Printed MsgConnectionClosed].
Proof. by vm_compute. Qed.

(** ** Frames the listener cannot act on *)

Lemma read_loop_raise fuel w header w1 message_type data_length e w2 :
  recv 8 w = (Ok header, w1) → header ≠ [] →
  unpack_II header w1 = (Ok (message_type, data_length), w1) →
  handle_message message_type data_length w1 = (Raise e, w2) →
  read_loop (S fuel) w = (Raise e, w2).
Proof.
  intros Hrecv Hne Hun Hmsg. rewrite read_loop_S, Hrecv.
  destruct header as [|b header]; [done|]. by rewrite Hun, Hmsg.
Qed.

(** C3, as stated, fails: with a 1x1 matrix configured, an ImageData
    frame carrying 2 bytes instead of 3 is followed on the same
    connection by a well-formed frame for the pixel (1,2,3).  The
    first frame is not merely rejected: the driver is called to clear
    the matrix, which changes what the strip shows, and the connection
    is closed with the well-formed frame unread, so its pixel is never
    written. *)
Lemma size_mismatch_reaches_driver :
  let next := image_header 3 ++ (byte_of <$> [1; 2; 3]) in
  let w := configured one_by_one
             [Data (image_header 2 ++ (byte_of <$> [7; 7])); Data next] in
  emitted serve_connection w
  = [Printed MsgReceivingImage; Printed (MsgConnectionError ValueError);
     SetPixelColor 0 (Color 0 0 0); StripShow; Printed MsgCleared;
     ConnClose; Printed MsgConnectionClosed]
  ∧ conn (serve_connection w).2 = [Data next]
  ∧ driver_calls (emitted serve_connection w) ≠ []
  ∧ strip_state [Color 9 9 9] (emitted serve_connection w) ≠ [Color 9 9 9]
  ∧ SetPixelColor 0 (Color 1 2 3) ∉ emitted serve_connection w.
Proof.
  intros next w.
  assert (emitted serve_connection w
          = [Printed MsgReceivingImage; Printed (MsgConnectionError ValueError);
             SetPixelColor 0 (Color 0 0 0); StripShow; Printed MsgCleared;
             ConnClose; Printed MsgConnectionClosed]) as Hrun by (by vm_compute).
  split_and!; [exact Hrun | by vm_compute | by vm_compute | by vm_compute |].
  rewrite Hrun. intros Hin.
  repeat (apply elem_of_cons in Hin as [Hin|Hin]; [by vm_compute in Hin|]).
  by apply elem_of_nil in Hin.
Qed.

(** C3, amended: when the bytes received for an ImageData frame are
    not rows*cols*3 in number, the reshape raises before display_image
    is called, so handling the frame makes no driver call; the error is
    reported as a connection error, the read loop ends, and the cleanup
    clears the matrix (one black write per element and one show) and
    closes the connection. *)
Theorem image_size_mismatch w self header data_length flat w1 w2 :
  led_matrix w = Some self →
  recv 8 w = (Ok header, w1) → header ≠ [] →
  unpack_II header w1 = (Ok (1, data_length), w1) →
  recv data_length (record [Printed MsgReceivingImage] w1) = (Ok flat, w2) →
  Z.of_nat (length flat) ≠ rows self * cols self * 3 →
  handle_message 1 data_length w1 = (Raise ValueError, w2)
  ∧ events w2 = events w ++ [Printed MsgReceivingImage]
  ∧ serve_connection w
    = (Ok tt,
       record (Printed (MsgConnectionError ValueError)
               :: clear_events self ++ [ConnClose; Printed MsgConnectionClosed]) w2).
Proof.
  intros Hlm Hrecv Hne Hun Hflat Hlen.
  destruct (recv_keeps _ _ _ _ Hrecv) as (Hlm1 & Hev1 & _).
  destruct (recv_keeps _ _ _ _ Hflat) as (Hlm2 & Hev2 & _).
  simpl in Hlm2, Hev2.
  assert (handle_message 1 data_length w1 = (Raise ValueError, w2)) as Hmsg.
  { unfold handle_message. rewrite decide_False, decide_True by done.
    erewrite bind_ok by apply emits_print.
    erewrite bind_ok by apply Hflat.
    erewrite bind_ok; [|unfold led_matrix_attr; by rewrite Hlm2, Hlm1, Hlm].
    apply bind_raise. unfold frombuffer_reshape.
    rewrite decide_False; [done|]. by intros (_ & _ & ?). }
  split_and!; [done|by rewrite Hev2, Hev1|].
  rewrite (serve_connection_raise w ValueError w2).
  - by rewrite Hlm2, Hlm1, Hlm.
  - by eapply read_loop_raise.
Qed.

Lemma image_size_mismatch_witness :
  let w := configured two_by_two [Data (image_header 3 ++ (byte_of <$> [1; 2; 3]))] in
  emitted serve_connection w
  = [Printed MsgReceivingImage; Printed (MsgConnectionError ValueError)]
    ++ clear_events two_by_two ++ [ConnClose; Printed MsgConnectionClosed].
Proof.
  intros w.
  destruct (image_size_mismatch w two_by_two (image_header 3) 3
              (byte_of <$> [1; 2; 3])
              (set_conn [Data (byte_of <$> [1; 2; 3])] w)
              (set_conn [] (record [Printed MsgReceivingImage] w)))
    as (_ & _ & Hserve); [reflexivity | reflexivity | discriminate
                          | reflexivity | reflexivity | simpl; lia |].
  unfold emitted. rewrite Hserve. reflexivity.
Defined.

Lemma run_test_pattern_unconfigured name w :
  led_matrix w = None → name = "rgb_sweep" ∨ name = "rainbow_sweep" →
  run_test_pattern name w = (Raise AttributeError, record [Printed (MsgRunning name)] w).
Proof.
  intros Hlm Hname. unfold run_test_pattern.
  erewrite bind_ok by apply emits_print.
  assert (led_matrix_attr (record [Printed (MsgRunning name)] w)
          = (Raise AttributeError, record [Printed (MsgRunning name)] w)) as Hattr.
  { unfold led_matrix_attr. simpl. by rewrite Hlm. }
  destruct Hname as [-> | ->].
  - rewrite decide_True by done. by apply bind_raise.
  - rewrite decide_False, decide_True by done. by apply bind_raise.
Qed.

(** C6, as stated, fails: a TestPattern with code 1 before any Setup is
    reported and does not escape the connection handler, but the
    connection is closed at once and the Setup frame the peer sent next
    is never read. *)
Lemma unconfigured_use_closes_connection :
  let w := connected [Data (pattern_frame 1); Data (setup_frame 1 1)] in
  (serve_connection w).1 = Ok tt
  ∧ events (serve_connection w).2
    = [Printed (MsgTestCommand 1); Printed (MsgRunning "rgb_sweep");
       Printed (MsgConnectionError AttributeError);
       ConnClose; Printed MsgConnectionClosed]
  ∧ conn (serve_connection w).2 = [Data (setup_frame 1 1)]
  ∧ led_matrix (serve_connection w).2 = None.
Proof. split_and!; by vm_compute. Qed.

(** C6, amended: an ImageData frame, or a TestPattern frame with code 1
    or 2, received while no matrix is configured raises inside the read
    loop; the error is reported as a connection error and does not
    escape the connection handler, no driver call is made, and the
    connection is closed with the rest of the stream unread. *)
Theorem unconfigured_use w header message_type data_length w1 :
  led_matrix w = None →
  recv 8 w = (Ok header, w1) → header ≠ [] →
  unpack_II header w1 = (Ok (message_type, data_length), w1) →
  (message_type = 1 → ∀ flat w2,
     recv data_length (record [Printed MsgReceivingImage] w1) = (Ok flat, w2) →
     serve_connection w
     = (Ok tt, record [Printed (MsgConnectionError AttributeError);
                       ConnClose; Printed MsgConnectionClosed] w2)
     ∧ events w2 = events w ++ [Printed MsgReceivingImage])
  ∧ (message_type = 2 → data_length = 1 ∨ data_length = 2 →
     serve_connection w
     = (Ok tt, record [Printed (MsgTestCommand data_length);
                       Printed (MsgRunning (if decide (data_length = 1)
                                          then "rgb_sweep" else "rainbow_sweep"));
                       Printed (MsgConnectionError AttributeError);
                       ConnClose; Printed MsgConnectionClosed] w1)
     ∧ events w1 = events w ∧ led_matrix w1 = None).
Proof.
  intros Hlm Hrecv Hne Hun.
  destruct (recv_keeps _ _ _ _ Hrecv) as (Hlm1 & Hev1 & _).
  split.
  - intros -> flat w2 Hflat.
    destruct (recv_keeps _ _ _ _ Hflat) as (Hlm2 & Hev2 & _).
    simpl in Hlm2, Hev2. split; [|by rewrite Hev2, Hev1].
    rewrite (serve_connection_raise w AttributeError w2).
    + by rewrite Hlm2, Hlm1, Hlm.
    + eapply read_loop_raise; [done..|].
      unfold handle_message. rewrite decide_False, decide_True by done.
      erewrite bind_ok by apply emits_print.
      erewrite bind_ok by apply Hflat.
      apply bind_raise. unfold led_matrix_attr. by rewrite Hlm2, Hlm1, Hlm.
  - intros -> Hcode. split_and!; [|done|by rewrite Hlm1].
    set (name := if decide (data_length = 1) then "rgb_sweep" else "rainbow_sweep").
    rewrite (serve_connection_raise w AttributeError
               (record [Printed (MsgTestCommand data_length); Printed (MsgRunning name)] w1)).
    + rewrite record_app. simpl. by rewrite Hlm1, Hlm.
    + eapply read_loop_raise; [done..|].
      unfold handle_message. rewrite !decide_False, decide_True by done.
      erewrite bind_ok by apply emits_print.
      assert (run_test_pattern name (record [Printed (MsgTestCommand data_length)] w1)
              = (Raise AttributeError,
                 record [Printed (MsgTestCommand data_length); Printed (MsgRunning name)] w1))
        as Hrun.
      { rewrite run_test_pattern_unconfigured, ?record_app; [done| |].
        - simpl. by rewrite Hlm1.
        - unfold name. case_decide; auto. }
      unfold name in *. destruct Hcode as [-> | ->].
      * by rewrite decide_True by done.
      * by rewrite decide_False, decide_True by done.
Qed.

Lemma unconfigured_use_witness :
  let w := connected [Data (pattern_frame 1); Data (setup_frame 1 1)] in
  serve_connection w
  = (Ok tt, record [Printed (MsgTestCommand 1); Printed (MsgRunning "rgb_sweep");
                    Printed (MsgConnectionError AttributeError);
                    ConnClose; Printed MsgConnectionClosed]
              (connected [Data (setup_frame 1 1)])).
Proof.
  intros w.
  destruct (unconfigured_use w (pattern_frame 1) 2 1
              (connected [Data (setup_frame 1 1)]))
    as [_ Hpattern]; [reflexivity | reflexivity | discriminate | reflexivity |].
  destruct Hpattern as (Hserve & _); [reflexivity | by left |].
  exact Hserve.
Defined.

(** The listener itself goes on: after the connection above it accepts
    the next one and acts on its Setup. *)
Example listener_survives_unconfigured_use :
  start [[Data (pattern_frame 1)]; [Data (setup_frame 1 1)]] fresh
  = (Ok tt,
     {| conn := []; led_matrix := Some one_by_one;
        events :=
          [Printed MsgListening;
           Printed MsgConnected;
           Printed (MsgTestCommand 1); Printed (MsgRunning "rgb_sweep");
           Printed (MsgConnectionError AttributeError);
           ConnClose; Printed MsgConnectionClosed;
           Printed MsgConnected;
           Printed (MsgInitializing 1 1); StripBegin 1;
           SetPixelColor 0 (Color 0 0 0); StripShow; Printed MsgCleared;
           ConnClose; Printed MsgConnectionClosed];
        hw_ok := hw_ok fresh |}).
Proof. reflexivity. Qed.

(** ** Setup *)

(** C10: the Setup branch stores the new matrix only after its
    construction has returned.  Whenever the branch raises (the read of
    cols fails, or the strip fails to initialise) self.led_matrix is
    what it was before, a matrix or None; when construction succeeds
    the new matrix replaces it. *)
Theorem setup_failure_keeps_matrix w rows :
  (∀ e w', handle_message 0 rows w = (Raise e, w') → led_matrix w' = led_matrix w)
  ∧ (∀ buffer cols w1,
       recv 4 w = (Ok buffer, w1) → unpack_I buffer w1 = (Ok cols, w1) →
       hw_ok w (rows * cols) = false →
       handle_message 0 rows w
       = (Raise RuntimeError, record [Printed (MsgInitializing rows cols)] w1)
       ∧ led_matrix w1 = led_matrix w)
  ∧ (∀ buffer cols w1,
       recv 4 w = (Ok buffer, w1) → unpack_I buffer w1 = (Ok cols, w1) →
       hw_ok w (rows * cols) = true →
       ∃ w', handle_message 0 rows w = (Ok tt, w')
             ∧ led_matrix w' = Some (MkLEDMatrix rows cols (rows * cols))
             ∧ events w'
               = events w ++ [Printed (MsgInitializing rows cols);
                              StripBegin (rows * cols)]).
Proof.
  split_and!.
  - intros e w'. unfold handle_message. rewrite decide_True by done.
    unfold mbind, M_bind.
    destruct (recv 4 w) as [[buffer|e1|] w1] eqn:Hrecv;
      destruct (recv_keeps _ _ _ _ Hrecv) as (Hlm1 & _ & Hhw1);
      [|intros; by simplify_eq..].
    pose proof (unpack_I_world buffer w1) as Hw2.
    destruct (unpack_I buffer w1) as [[cols|e2|] w2]; cbn [snd] in Hw2; subst w2;
      [|intros; by simplify_eq..].
    unfold print, emit, LEDMatrix_init, set_led_matrix. cbn.
    destruct (hw_ok w1 (rows * cols)); intros; by simplify_eq.
  - intros buffer cols w1 Hrecv Hun Hhw.
    destruct (recv_keeps _ _ _ _ Hrecv) as (Hlm1 & _ & Hhw1).
    split; [|done]. unfold handle_message. rewrite decide_True by done.
    erewrite bind_ok by apply Hrecv. erewrite bind_ok by apply Hun.
    erewrite bind_ok by apply emits_print.
    apply bind_raise. unfold LEDMatrix_init. simpl. by rewrite Hhw1, Hhw.
  - intros buffer cols w1 Hrecv Hun Hhw.
    destruct (recv_keeps _ _ _ _ Hrecv) as (Hlm1 & Hev1 & Hhw1).
    eexists. split_and!.
    + unfold handle_message. rewrite decide_True by done.
      erewrite bind_ok by apply Hrecv. erewrite bind_ok by apply Hun.
      erewrite bind_ok by apply emits_print.
      erewrite bind_ok; [|unfold LEDMatrix_init; simpl; by rewrite Hhw1, Hhw].
      reflexivity.
    + done.
    + simpl. by rewrite Hev1, <- app_assoc.
Qed.

Lemma setup_failure_keeps_matrix_witness :
  let w := failing_hardware (Some two_by_two) [Data (byte_of <$> [0; 0; 0; 3])] in
  handle_message 0 1 w
  = (Raise RuntimeError, record [Printed (MsgInitializing 1 3)] (set_conn [] w))
  ∧ led_matrix (set_conn [] w) = Some two_by_two.
Proof.
  intros w.
  destruct (setup_failure_keeps_matrix w 1) as (_ & Hfail & _).
  apply (Hfail (byte_of <$> [0; 0; 0; 3]) 3 (set_conn [] w));
    reflexivity.
Defined.

(** A failed Setup seen from the connection: the error is reported,
    the matrix held before is the one cleared, and it is still held
    afterwards. *)
Example failed_setup_keeps_old_matrix :
  let w := failing_hardware (Some two_by_two) [Data (setup_frame 1 3)] in
  emitted serve_connection w
  = [Printed (MsgInitializing 1 3); Printed (MsgConnectionError RuntimeError)]
    ++ clear_events two_by_two ++ [ConnClose; Printed MsgConnectionClosed]
  ∧ led_matrix (serve_connection w).2 = Some two_by_two.
Proof. split; reflexivity. Qed.

(** * Further properties of the code *)

(** ** Filling the strip: clear_matrix and test_pattern *)

Lemma fill_targets self c : (fill_writes self c).*1 = range (led_count self).
Proof.
  unfold fill_writes. rewrite <- list_fmap_compose.
  change (fst ∘ _) with (@id Z). apply list_fmap_id.
Qed.

Lemma strip_state_fill self c leds :
  length leds = Z.to_nat (led_count self) →
  strip_state leds (write <$> fill_writes self c) = replicate (length leds) c.
Proof.
  intros Hlen. apply list_eq. intros i.
  destruct (decide (i < length leds)%nat) as [Hi|Hi].
  - rewrite lookup_replicate_2 by done.
    replace i with (Z.to_nat (Z.of_nat i)) at 1 by lia.
    apply strip_state_written; [| |lia|lia].
    + rewrite fill_targets. apply NoDup_seqZ.
    + unfold fill_writes. apply list_elem_of_fmap. exists (Z.of_nat i).
      split; [done|]. apply elem_of_seqZ. lia.
  - rewrite !lookup_ge_None_2; [done| |];
      rewrite ?length_replicate, ?length_strip_state; lia.
Qed.

Lemma clear_events_fill self :
  clear_events self
  = (write <$> fill_writes self (Color 0 0 0)) ++ [StripShow; Printed MsgCleared].
Proof. apply clear_events_writes. Qed.

Lemma strip_state_clear_events self leds :
  length leds = Z.to_nat (led_count self) →
  strip_state leds (clear_events self) = replicate (length leds) (Color 0 0 0).
Proof.
  intros Hlen. rewrite clear_events_fill, strip_state_app.
  by rewrite strip_state_fill.
Qed.

(** X1: after clear_matrix every element of a strip of led_count
    elements is (0,0,0), whatever it showed before, and one show has
    been called; clearing again changes nothing. *)
Theorem clear_matrix_blank self leds w :
  length leds = Z.to_nat (led_count self) →
  clear_matrix self w = (Ok tt, record (emitted (clear_matrix self) w) w)
  ∧ strip_state leds (emitted (clear_matrix self) w)
    = replicate (length leds) (Color 0 0 0)
  ∧ strip_state (strip_state leds (emitted (clear_matrix self) w))
      (emitted (clear_matrix self) w)
    = strip_state leds (emitted (clear_matrix self) w)
  ∧ shows (emitted (clear_matrix self) w) = 1%nat.
Proof.
  intros Hlen.
  rewrite (emitted_emits _ _ w (clear_matrix_emits self)).
  split_and!.
  - apply clear_matrix_emits.
  - by apply strip_state_clear_events.
  - rewrite (strip_state_clear_events self leds Hlen).
    rewrite strip_state_clear_events by (by rewrite length_replicate).
    by rewrite length_replicate.
  - apply shows_clear_events.
Qed.

Lemma clear_matrix_blank_witness :
  strip_state [Color 1 2 3; Color 4 5 6; Color 7 8 9; Color 0 0 1]
    (emitted (clear_matrix two_by_two) fresh)
  = replicate 4 (Color 0 0 0).
Proof.
  apply (clear_matrix_blank two_by_two
           [Color 1 2 3; Color 4 5 6; Color 7 8 9; Color 0 0 1] fresh).
  reflexivity.
Defined.

Lemma test_pattern_events self color_sequence :
  emits (test_pattern self color_sequence)
    ((color_sequence ≫= λ color,
        (write <$> fill_writes self color) ++ [StripShow; TimeSleep 500])
     ++ [Printed MsgTestPatternDone]).
Proof.
  eapply emits_eq; [apply test_pattern_emits|]. f_equal.
  induction color_sequence as [|c cs IH]; [done|].
  rewrite !bind_cons, IH. do 2 f_equal.
  unfold fill_writes. by rewrite <- list_fmap_compose.
Qed.

Lemma shows_pattern self (cs : list color) :
  shows (cs ≫= λ color,
           (write <$> fill_writes self color) ++ [StripShow; TimeSleep 500])
  = length cs.
Proof.
  induction cs as [|c cs IH]; [done|].
  rewrite bind_cons, !shows_app, shows_writes, IH. done.
Qed.

Lemma slept_app evs1 evs2 : slept (evs1 ++ evs2) = slept evs1 + slept evs2.
Proof.
  induction evs1 as [|e evs1 IH]; [done|]. destruct e; simpl; lia.
Qed.

Lemma slept_writes (ws : list (Z * color)) : slept (write <$> ws) = 0.
Proof. induction ws as [|[k c] ws IH]; [done|]. rewrite fmap_cons. apply IH. Qed.

Lemma slept_pattern self (cs : list color) :
  slept (cs ≫= λ color,
           (write <$> fill_writes self color) ++ [StripShow; TimeSleep 500])
  = 500 * Z.of_nat (length cs).
Proof.
  induction cs as [|c cs IH]; [done|].
  rewrite bind_cons, !slept_app, slept_writes, IH. simpl. lia.
Qed.

(** X2: test_pattern with a non-empty colour sequence returns after
    one show and one 500 ms sleep per colour, and leaves every element
    of the strip at the last colour of the sequence. *)
Theorem test_pattern_fills self color_sequence last_color leds w :
  length leds = Z.to_nat (led_count self) →
  last color_sequence = Some last_color →
  test_pattern self color_sequence w
  = (Ok tt, record (emitted (test_pattern self color_sequence) w) w)
  ∧ shows (emitted (test_pattern self color_sequence) w) = length color_sequence
  ∧ slept (emitted (test_pattern self color_sequence) w)
    = 500 * Z.of_nat (length color_sequence)
  ∧ strip_state leds (emitted (test_pattern self color_sequence) w)
    = replicate (length leds) last_color.
Proof.
  intros Hlen Hlast.
  pose proof (test_pattern_events self color_sequence) as Hrun.
  rewrite (emitted_emits _ _ w Hrun). split_and!.
  - apply Hrun.
  - rewrite shows_app, shows_pattern.
    assert (shows [Printed MsgTestPatternDone] = 0%nat) as -> by done. lia.
  - rewrite slept_app, slept_pattern. simpl. lia.
  - apply last_Some in Hlast as [cs ->].
    rewrite bind_app, bind_singleton, !strip_state_app. simpl.
    rewrite strip_state_fill by (by rewrite length_strip_state).
    by rewrite length_strip_state.
Qed.

Lemma test_pattern_fills_witness :
  strip_state (replicate 4 (Color 9 9 9))
    (emitted (test_pattern two_by_two [Color 255 0 0; Color 0 0 255]) fresh)
  = replicate 4 (Color 0 0 255).
Proof.
  apply (test_pattern_fills two_by_two [Color 255 0 0; Color 0 0 255]
           (Color 0 0 255) (replicate 4 (Color 9 9 9)) fresh); reflexivity.
Defined.

Lemma Color_channels r g b :
  0 ≤ r ≤ 255 → 0 ≤ g ≤ 255 → 0 ≤ b ≤ 255 →
  red (Color r g b) = r ∧ green (Color r g b) = g ∧ blue (Color r g b) = b.
Proof.
  intros Hr Hg Hb. unfold red, green, blue, Color.
  rewrite Z.shiftl_0_l, Z.lor_0_l, !Z.shiftr_lor, !Z.land_lor_distr_l.
  rewrite !land_255, !Z.shiftr_div_pow2, !Z.shiftl_mul_pow2 by lia.
  change (2 ^ 16) with 65536. change (2 ^ 8) with 256.
  rewrite (Z.div_mul r 65536), (Z.div_mul g 256) by lia.
  rewrite (Z.div_small (g * 256) 65536), (Z.div_small b 65536),
    (Z.div_small b 256) by lia.
  replace (r * 65536) with (r * 256 * 256) by lia.
  rewrite (Z.div_mul (r * 256) 256), !Z.mod_mul by lia.
  rewrite !Z.mod_0_l, !Z.lor_0_r, !Z.lor_0_l by lia.
  rewrite !Z.mod_small by lia. done.
Qed.

(** X3: for every position in 0..255 the three channels of the colour
    wheel returns, read back from the packed value, add up to 255 and
    at least one of them is 0. *)
Theorem wheel_channel_sum pos :
  0 ≤ pos ≤ 255 →
  red (wheel pos) + green (wheel pos) + blue (wheel pos) = 255
  ∧ (red (wheel pos) = 0 ∨ green (wheel pos) = 0 ∨ blue (wheel pos) = 0).
Proof.
  intros Hpos. unfold wheel. repeat case_decide; cbn zeta.
  - destruct (Color_channels (pos * 3) (255 - pos * 3) 0) as (-> & -> & ->);
      [lia..|]. split; [lia|auto].
  - destruct (Color_channels (255 - (pos - 85) * 3) 0 ((pos - 85) * 3))
      as (-> & -> & ->); [lia..|]. split; [lia|auto].
  - destruct (Color_channels 0 ((pos - 170) * 3) (255 - (pos - 170) * 3))
      as (-> & -> & ->); [lia..|]. split; [lia|auto].
Qed.

Lemma wheel_channel_sum_witness :
  red (wheel 200) + green (wheel 200) + blue (wheel 200) = 255
  ∧ (red (wheel 200) = 0 ∨ green (wheel 200) = 0 ∨ blue (wheel 200) = 0).
Proof. apply (wheel_channel_sum 200). lia. Defined.

(** ** What the frames of a connection can and cannot change *)

Lemma no_new_events (evs0 : list event) :
  ∃ evs, evs0 = evs0 ++ evs ∧ ConnClose ∉ evs.
Proof. exists []. split; [by rewrite app_nil_r|apply not_elem_of_nil]. Qed.

Lemma steady_ret {A} (a : A) : steady (mret a).
Proof. intros w. split_and!; [done..|]. apply no_new_events. Qed.

Lemma steady_raise {A} e : steady (@raise A e).
Proof. intros w. split_and!; [done..|]. apply no_new_events. Qed.

Lemma steady_bind {A B} (m : M A) (f : A → M B) :
  steady m → (∀ a, steady (f a)) → steady (m ≫= f).
Proof.
  intros Hm Hf w. unfold mbind, M_bind.
  destruct (Hm w) as (Hlm & Hhw & evs & Hev & Hno).
  destruct (m w) as [[a|e|] w1]; cbn [fst snd] in *;
    [|split_and!; [done..|exists evs; by split]..].
  destruct (Hf a w1) as (Hlm' & Hhw' & evs' & Hev' & Hno').
  split_and!; [congruence..|]. exists (evs ++ evs'). split.
  - rewrite Hev', Hev. by rewrite <- app_assoc.
  - apply not_elem_of_app. by split.
Qed.

Lemma steady_emits c evs : emits c evs → ConnClose ∉ evs → steady c.
Proof.
  intros H Hno w. rewrite !(H w). split_and!; [done..|]. exists evs. by split.
Qed.

Lemma steady_emit e : e ≠ ConnClose → steady (emit e).
Proof.
  intros He. apply (steady_emits _ [e]); [apply emits_emit|].
  intros Hin%list_elem_of_singleton. congruence.
Qed.

Lemma steady_for {X} (xs : list X) (body : X → M unit) :
  (∀ x, steady (body x)) → steady (for_ xs body).
Proof.
  intros Hbody. induction xs as [|x xs IH]; simpl.
  - apply steady_ret.
  - apply steady_bind; [apply Hbody|by intros _].
Qed.

Lemma steady_recv bufsize : steady (recv bufsize).
Proof.
  intros w. destruct (recv_world bufsize w) as (c & -> & _).
  split_and!; [done..|]. apply no_new_events.
Qed.

Lemma steady_led_matrix_attr : steady led_matrix_attr.
Proof.
  intros w. unfold led_matrix_attr.
  destruct (led_matrix w) eqn:Hlm; simpl; rewrite ?Hlm;
    (split_and!; [done..|]); apply no_new_events.
Qed.

Lemma steady_clear_matrix self : steady (clear_matrix self).
Proof.
  unfold clear_matrix. apply steady_bind; [|intros _].
  - apply steady_for. intros i. by apply steady_emit.
  - apply steady_bind; [by apply steady_emit|intros _; by apply steady_emit].
Qed.

Lemma steady_display_image self image_array : steady (display_image self image_array).
Proof.
  unfold display_image.
  apply steady_bind; [apply steady_clear_matrix|intros _].
  apply steady_bind.
  - apply steady_for. intros row. apply steady_for. intros col.
    apply steady_bind.
    + unfold image_at. destruct (pixel_at _ _ _); [apply steady_ret|apply steady_raise].
    + intros [[r g] b]. by apply steady_emit.
  - intros _. apply steady_bind; [by apply steady_emit|intros _; by apply steady_emit].
Qed.

Lemma steady_test_pattern self color_sequence :
  steady (test_pattern self color_sequence).
Proof.
  unfold test_pattern. apply steady_bind; [|intros _; by apply steady_emit].
  apply steady_for. intros color. apply steady_bind.
  - apply steady_for. intros i. by apply steady_emit.
  - intros _. apply steady_bind; [by apply steady_emit|intros _; by apply steady_emit].
Qed.

Lemma steady_time_sleep ms : steady (time_sleep ms).
Proof.
  unfold time_sleep. case_decide; [apply steady_raise|by apply steady_emit].
Qed.

Lemma steady_rainbow_sweep self delay_ms : steady (rainbow_sweep self delay_ms).
Proof.
  unfold rainbow_sweep. apply steady_bind; [|intros _; by apply steady_emit].
  apply steady_for. intros j. apply steady_bind.
  - apply steady_for. intros i. apply steady_bind.
    + unfold divmod. case_decide; [apply steady_raise|apply steady_ret].
    + intros [row col]. by apply steady_emit.
  - intros _. apply steady_bind;
      [by apply steady_emit|intros _; apply steady_time_sleep].
Qed.

Lemma steady_run_test_pattern pattern_name : steady (run_test_pattern pattern_name).
Proof.
  unfold run_test_pattern. apply steady_bind; [by apply steady_emit|intros _].
  repeat case_decide.
  - apply steady_bind; [apply steady_led_matrix_attr|intros m].
    apply steady_test_pattern.
  - apply steady_bind; [apply steady_led_matrix_attr|intros m].
    apply steady_rainbow_sweep.
  - by apply steady_emit.
Qed.

Lemma steady_handle_message message_type data_length :
  message_type ≠ 0 → steady (handle_message message_type data_length).
Proof.
  intros Hne. unfold handle_message. rewrite decide_False by done.
  destruct (decide (message_type = 1)) as [_|_];
    [|destruct (decide (message_type = 2)) as [_|_]].
  - apply steady_bind; [by apply steady_emit|intros _].
    apply steady_bind; [apply steady_recv|intros flat].
    apply steady_bind; [apply steady_led_matrix_attr|intros m].
    apply steady_bind; [|intros image_array; apply steady_display_image].
    unfold frombuffer_reshape. case_decide; [apply steady_ret|apply steady_raise].
  - apply steady_bind; [by apply steady_emit|intros _].
    repeat case_decide;
      first [apply steady_run_test_pattern | by apply steady_emit].
  - apply steady_ret.
Qed.

(** X4: an ImageData frame, a TestPattern frame and a frame of unknown
    type never change self.led_matrix, whether they succeed or raise:
    only a Setup frame can replace the matrix. *)
Theorem only_setup_replaces_matrix message_type data_length w :
  message_type ≠ 0 →
  led_matrix (handle_message message_type data_length w).2 = led_matrix w.
Proof.
  intros Hne.
  by destruct (steady_handle_message message_type data_length Hne w) as (? & _).
Qed.

Lemma only_setup_replaces_matrix_witness :
  led_matrix
    (handle_message 1 12
       (configured two_by_two [Data (byte_of <$> [1; 2; 3])])).2
  = Some two_by_two.
Proof.
  apply (only_setup_replaces_matrix 1 12
           (configured two_by_two [Data (byte_of <$> [1; 2; 3])])).
  lia.
Defined.

(** ** Setup frames and the stored geometry *)

Lemma byte_val_range b : 0 ≤ byte_val b < 256.
Proof.
  unfold byte_val. pose proof (Byte.to_N_bounded b). lia.
Qed.

Lemma lor_range n x y :
  0 ≤ x < 2 ^ n → 0 ≤ y < 2 ^ n → 0 ≤ Z.lor x y < 2 ^ n.
Proof.
  intros Hx Hy.
  assert (0 ≤ Z.lor x y) as Hpos by (apply Z.lor_nonneg; lia).
  split; [done|].
  destruct (decide (Z.lor x y = 0)) as [->|Hne]; [lia|].
  assert (0 < n) as Hn.
  { destruct (decide (0 < n)) as [|Hn]; [done|]. exfalso. apply Hne.
    assert (2 ^ n ≤ 1) as Hle.
    { destruct (decide (n = 0)) as [->|]; [done|].
      rewrite Z.pow_neg_r by lia. lia. }
    assert (x = 0) as -> by lia. assert (y = 0) as -> by lia. done. }
  apply Z.log2_lt_pow2; [lia|]. rewrite Z.log2_lor by lia.
  apply Z.max_lub_lt.
  - destruct (decide (x = 0)) as [->|]; [done|]. apply Z.log2_lt_pow2; lia.
  - destruct (decide (y = 0)) as [->|]; [done|]. apply Z.log2_lt_pow2; lia.
Qed.

Lemma uint32_be_range b0 b1 b2 b3 : 0 ≤ uint32_be b0 b1 b2 b3 < 2 ^ 32.
Proof.
  pose proof (byte_val_range b0). pose proof (byte_val_range b1).
  pose proof (byte_val_range b2). pose proof (byte_val_range b3).
  unfold uint32_be. rewrite !Z.shiftl_mul_pow2 by lia.
  repeat apply lor_range; lia.
Qed.

Lemma unpack_II_range buffer w message_type data_length w1 :
  unpack_II buffer w = (Ok (message_type, data_length), w1) →
  0 ≤ message_type < 2 ^ 32 ∧ 0 ≤ data_length < 2 ^ 32.
Proof.
  unfold unpack_II.
  destruct buffer as [|? [|? [|? [|? [|? [|? [|? [|? [|? ?]]]]]]]]];
    intros H; try done.
  injection H as <- <- _. split; apply uint32_be_range.
Qed.

Lemma unpack_I_range buffer w cols w1 :
  unpack_I buffer w = (Ok cols, w1) → 0 ≤ cols < 2 ^ 32.
Proof.
  unfold unpack_I. destruct buffer as [|? [|? [|? [|? [|? ?]]]]]; intros H; try done.
  injection H as <- _. apply uint32_be_range.
Qed.

Lemma appended_twice (evs0 evs1 evs2 e1 : list event) :
  evs1 = evs0 ++ e1 → ConnClose ∉ e1 →
  (∃ e2, evs2 = evs1 ++ e2 ∧ ConnClose ∉ e2) →
  ∃ evs, evs2 = evs0 ++ evs ∧ ConnClose ∉ evs.
Proof.
  intros -> H1 (e2 & -> & H2). exists (e1 ++ e2). split.
  - by rewrite <- app_assoc.
  - apply not_elem_of_app. by split.
Qed.

(** What a Setup frame can do to the world. *)
Lemma handle_setup_keeps rows w :
  hw_ok (handle_message 0 rows w).2 = hw_ok w
  ∧ (∃ evs, events (handle_message 0 rows w).2 = events w ++ evs ∧ ConnClose ∉ evs)
  ∧ (led_matrix (handle_message 0 rows w).2 = led_matrix w
     ∨ ∃ cols, 0 ≤ cols < 2 ^ 32
               ∧ led_matrix (handle_message 0 rows w).2
                 = Some (MkLEDMatrix rows cols (rows * cols))).
Proof.
  unfold handle_message. rewrite decide_True by done. unfold mbind, M_bind.
  destruct (recv 4 w) as [[buffer|e1|] w1] eqn:Hrecv;
    destruct (recv_keeps _ _ _ _ Hrecv) as (Hlm1 & Hev1 & Hhw1); cbn [snd];
    [|split_and!; [done|rewrite Hev1; apply no_new_events|by left]..].
  pose proof (unpack_I_world buffer w1) as Hw2.
  destruct (unpack_I buffer w1) as [[cols|e2|] w2] eqn:Hun;
    cbn [snd] in Hw2 |- *; subst w2;
    [|split_and!; [done|rewrite Hev1; apply no_new_events|by left]..].
  apply unpack_I_range in Hun.
  unfold print, emit, LEDMatrix_init, set_led_matrix. cbn.
  destruct (hw_ok w1 (rows * cols)); cbn; split_and!; try done.
  - rewrite Hev1, <- app_assoc. eexists. split; [done|].
    intros Hin. repeat (apply elem_of_cons in Hin as [Hin|Hin]; [done|]).
    by apply elem_of_nil in Hin.
  - right. by exists cols.
  - rewrite Hev1. eexists. split; [done|].
    intros Hin. repeat (apply elem_of_cons in Hin as [Hin|Hin]; [done|]).
    by apply elem_of_nil in Hin.
  - by left.
Qed.

Lemma handle_message_keeps message_type data_length w :
  0 ≤ data_length < 2 ^ 32 →
  hw_ok (handle_message message_type data_length w).2 = hw_ok w
  ∧ (∃ evs, events (handle_message message_type data_length w).2 = events w ++ evs
            ∧ ConnClose ∉ evs)
  ∧ (well_formed w → well_formed (handle_message message_type data_length w).2).
Proof.
  intros Hrange. destruct (decide (message_type = 0)) as [->|Hne].
  - destruct (handle_setup_keeps data_length w) as (Hhw & Hev & [Hlm|(cols & Hcols & Hlm)]).
    + split_and!; [done..|]. intros Hwf m Hm. apply Hwf. by rewrite <- Hlm.
    + split_and!; [done..|]. intros _ m Hm. rewrite Hlm in Hm. simplify_eq.
      unfold geometry. simpl. split_and!; lia.
  - destruct (steady_handle_message message_type data_length Hne w) as (Hlm & Hhw & Hev).
    split_and!; [done..|]. intros Hwf m Hm. apply Hwf. by rewrite <- Hlm.
Qed.

Lemma read_loop_keeps fuel w :
  hw_ok (read_loop fuel w).2 = hw_ok w
  ∧ (∃ evs, events (read_loop fuel w).2 = events w ++ evs ∧ ConnClose ∉ evs)
  ∧ (well_formed w → well_formed (read_loop fuel w).2).
Proof.
  revert w. induction fuel as [|fuel IH]; intros w.
  { split_and!; [done|apply no_new_events|done]. }
  rewrite read_loop_S.
  destruct (recv 8 w) as [[[|b header]|e|] w1] eqn:Hrecv;
    destruct (recv_keeps _ _ _ _ Hrecv) as (Hlm1 & Hev1 & Hhw1); cbn [snd];
    try (split_and!;
         [done | rewrite Hev1; apply no_new_events
         | intros Hwf m Hm; apply Hwf; by rewrite <- Hlm1]).
  pose proof (unpack_II_world (b :: header) w1) as Hw2.
  destruct (unpack_II (b :: header) w1) as [[[message_type data_length]|e|] w2] eqn:Hun;
    cbn [snd] in Hw2 |- *; subst w2;
    try (split_and!;
         [done | rewrite Hev1; apply no_new_events
         | intros Hwf m Hm; apply Hwf; by rewrite <- Hlm1]).
  apply unpack_II_range in Hun as [_ Hrange].
  destruct (handle_message_keeps message_type data_length w1 Hrange)
    as (Hhw2 & (evs2 & Hev2 & Hno2) & Hwf2).
  assert (well_formed w → well_formed w1) as Hwf1.
  { intros Hwf m Hm. apply Hwf. by rewrite <- Hlm1. }
  destruct (handle_message message_type data_length w1) as [[[]|e|] w3];
    cbn [snd] in *.
  - destruct (IH w3) as (Hhw3 & Hev3 & Hwf3). split_and!.
    + congruence.
    + eapply appended_twice; [|exact Hno2|exact Hev3]. by rewrite Hev2, Hev1.
    + auto.
  - split_and!; [congruence| |auto]. exists evs2. by rewrite Hev2, Hev1.
  - split_and!; [congruence| |auto]. exists evs2. by rewrite Hev2, Hev1.
Qed.

(** ** A whole connection, and the listener *)

Lemma serve_connection_emitted w :
  (serve_connection w).1 = Ok tt
  ∧ hw_ok (serve_connection w).2 = hw_ok w
  ∧ (well_formed w → well_formed (serve_connection w).2)
  ∧ ∃ evs, (ConnClose ∉ evs)
      ∧ emitted serve_connection w
        = evs ++ cleanup_events (led_matrix (serve_connection w).2).
Proof.
  destruct (serve_connection_run w) as [_ Hrun].
  destruct (read_loop_keeps (S (stream_size (conn w))) w)
    as (Hhw & (evs & Hev & Hno) & Hwf).
  unfold emitted. rewrite Hrun. cbn [fst snd].
  destruct (read_loop (S (stream_size (conn w))) w) as [r w1]. cbn [fst snd] in *.
  split_and!; [done..|].
  exists (evs ++ report r). split.
  - apply not_elem_of_app. split; [done|].
    destruct r as [[]|e|]; simpl; [apply not_elem_of_nil| |apply not_elem_of_nil].
    intros Hin%list_elem_of_singleton. done.
  - simpl. rewrite Hev, <- !app_assoc. by rewrite drop_app_length.
Qed.

Lemma no_close_in_clear self : ConnClose ∉ clear_events self.
Proof.
  unfold clear_events. apply not_elem_of_app. split.
  - intros (i & Heq & _)%list_elem_of_fmap. done.
  - intros Hin. repeat (apply elem_of_cons in Hin as [Hin|Hin]; [done|]).
    by apply elem_of_nil in Hin.
Qed.

(** X5: whatever the peer sends, serving a connection returns
    normally and calls conn.close() exactly once, as its last action
    but for the closing message. *)
Theorem connection_closed_once w :
  (serve_connection w).1 = Ok tt
  ∧ ∃ before,
      emitted serve_connection w
      = before ++ [ConnClose; Printed MsgConnectionClosed]
      ∧ ConnClose ∉ before.
Proof.
  destruct (serve_connection_emitted w) as (Hok & _ & _ & evs & Hno & Hem).
  split; [done|]. rewrite Hem. unfold cleanup_events.
  destruct (led_matrix (serve_connection w).2) as [self|].
  - exists (evs ++ clear_events self). split; [by rewrite <- app_assoc|].
    apply not_elem_of_app. split; [done|apply no_close_in_clear].
  - exists evs. by split.
Qed.

(** X6: when a connection has ended with a matrix configured, every
    element of its strip is (0,0,0), whatever was displayed while the
    connection was open. *)
Theorem strip_blank_after_disconnect w self leds :
  led_matrix (serve_connection w).2 = Some self →
  length leds = Z.to_nat (led_count self) →
  strip_state leds (emitted serve_connection w)
  = replicate (length leds) (Color 0 0 0).
Proof.
  intros Hself Hlen.
  destruct (serve_connection_emitted w) as (_ & _ & _ & evs & _ & Hem).
  rewrite Hem, Hself. unfold cleanup_events.
  rewrite !strip_state_app. simpl.
  rewrite strip_state_clear_events by (by rewrite length_strip_state).
  by rewrite length_strip_state.
Qed.

Lemma strip_blank_after_disconnect_witness :
  let w := connected [Data (setup_frame 2 2);
                      Data (image_header 12
                            ++ (byte_of <$> [255; 0; 0; 0; 255; 0;
                                             0; 0; 255; 255; 255; 0]))] in
  strip_state (replicate 4 (Color 9 9 9)) (emitted serve_connection w)
  = replicate 4 (Color 0 0 0).
Proof.
  intros w.
  apply (strip_blank_after_disconnect w two_by_two (replicate 4 (Color 9 9 9)));
    reflexivity.
Defined.

(** X7: a connection never leaves an ill-formed matrix behind: if the
    matrix held before (if any) has rows and cols in 0..2^32-1 and
    led_count = rows*cols, so has the matrix held afterwards, whatever
    frames arrived. *)
Theorem serve_connection_well_formed w :
  well_formed w → well_formed (serve_connection w).2.
Proof.
  intros Hwf. destruct (serve_connection_emitted w) as (_ & _ & Hkeep & _).
  by apply Hkeep.
Qed.

Lemma well_formed_fresh c : well_formed (connected c).
Proof. by intros m Hm. Qed.

Lemma serve_connection_well_formed_witness :
  well_formed (serve_connection (connected [Data (setup_frame 3 5)])).2
  ∧ led_matrix (serve_connection (connected [Data (setup_frame 3 5)])).2
    = Some (MkLEDMatrix 3 5 15).
Proof.
  split; [|reflexivity].
  apply (serve_connection_well_formed (connected [Data (setup_frame 3 5)])).
  apply well_formed_fresh.
Defined.

Lemma accept_and_serve_run c w :
  accept_and_serve c w
  = serve_connection (record [Printed MsgConnected] (set_conn c w))
  ∧ (accept_and_serve c w).1 = Ok tt.
Proof.
  assert (accept_and_serve c w
          = serve_connection (record [Printed MsgConnected] (set_conn c w))) as Heq
    by reflexivity.
  split; [done|]. rewrite Heq.
  by destruct (serve_connection_emitted (record [Printed MsgConnected] (set_conn c w)))
    as (Hok & _).
Qed.

Lemma for_ok {X} (xs : list X) (body : X → M unit) w :
  (∀ x w, (body x w).1 = Ok tt) → (for_ xs body w).1 = Ok tt.
Proof.
  intros Hbody. revert w. induction xs as [|x xs IH]; intros w; [done|].
  cbn [for_]. unfold mbind, M_bind.
  specialize (Hbody x w). destruct (body x w) as [r w1]. simpl in Hbody. subst r.
  apply IH.
Qed.

Lemma for_snoc {X} (xs : list X) (x : X) (body : X → M unit) w :
  (∀ x w, (body x w).1 = Ok tt) →
  for_ (xs ++ [x]) body w = body x (for_ xs body w).2.
Proof.
  intros Hbody. revert w. induction xs as [|x0 xs IH]; intros w.
  - cbn [app for_]. unfold mbind, M_bind.
    pose proof (Hbody x w) as Hx. simpl.
    destruct (body x w) as [r w1]. simpl in Hx. by subst r.
  - cbn [app for_]. unfold mbind, M_bind.
    pose proof (Hbody x0 w) as Hx. destruct (body x0 w) as [r w1].
    simpl in Hx. subst r. apply IH.
Qed.

Lemma start_unfold connections w :
  start connections w
  = for_ connections accept_and_serve (record [Printed MsgListening] w).
Proof. reflexivity. Qed.

(** X8: no stream of bytes, failing read or failing strip
    initialisation on any connection makes an exception escape the
    listener: start goes through every connection it accepts and is
    still running.  (Writes to a started strip and show are taken not
    to fail.) *)
Theorem start_never_raises connections w : (start connections w).1 = Ok tt.
Proof.
  rewrite start_unfold. apply for_ok. intros c w'. apply accept_and_serve_run.
Qed.

(** X9: connections are served one after another, each starting from
    the state the previous one left: the matrix set up on one
    connection is the matrix the next connection finds. *)
Theorem start_serves_in_order connections c w :
  start (connections ++ [c]) w
  = serve_connection
      (record [Printed MsgConnected] (set_conn c (start connections w).2)).
Proof.
  rewrite !start_unfold, for_snoc by (intros; apply accept_and_serve_run).
  apply accept_and_serve_run.
Qed.

(** ** Which elements a frame addresses *)

(** X10: the set-pixel calls of the frame pass of display_image address
    every index of 0..rows*cols-1 and nothing else, no index twice: the
    serpentine mapping never leaves the strip and never collides. *)
Theorem display_image_targets self image_array w :
  geometry self → covers image_array self →
  ∃ frame : list (Z * color),
    display_image self image_array w
    = (Ok tt, record (clear_events self ++ (write <$> frame)
                      ++ [StripShow; Printed MsgDisplayed]) w)
    ∧ NoDup frame.*1
    ∧ ∀ n, n ∈ frame.*1 ↔ 0 ≤ n < rows self * cols self.
Proof.
  intros Hgeo Hcov. exists (frame_writes self image_array). split_and!.
  - by apply display_image_emits.
  - apply NoDup_frame_targets.
  - intros n. split; [|by apply frame_targets_all].
    intros (row & col & Hrow & Hcol & ->)%elem_of_frame_targets.
    pose proof (physical_index_bounds (cols self) row col Hcol). nia.
Qed.

Lemma display_image_targets_witness :
  ∃ frame : list (Z * color),
    display_image two_by_three image_2x3 fresh
    = (Ok tt, record (clear_events two_by_three ++ (write <$> frame)
                      ++ [StripShow; Printed MsgDisplayed]) fresh)
    ∧ NoDup frame.*1
    ∧ ∀ n, n ∈ frame.*1 ↔ 0 ≤ n < 2 * 3.
Proof.
  assert (geometry two_by_three) as Hgeo by (unfold geometry; simpl; lia).
  apply (display_image_targets two_by_three image_2x3 fresh Hgeo covers_image_2x3).
Defined.






(** ** From the payload bytes to the strip *)

Lemma lookup_triples flat (k : nat) r g b :
  flat !! (3 * k)%nat = Some r →
  flat !! (3 * k + 1)%nat = Some g →
  flat !! (3 * k + 2)%nat = Some b →
  triples flat !! k = Some (byte_val r, byte_val g, byte_val b).
Proof.
  revert flat. induction k as [|k IH]; intros flat Hr Hg Hb.
  - destruct flat as [|x [|y [|z rest]]]; simpl in *; by simplify_eq.
  - replace (3 * S k)%nat with (S (S (S (3 * k)))) in Hr by lia.
    replace (3 * S k + 1)%nat with (S (S (S (3 * k + 1)))) in Hg by lia.
    replace (3 * S k + 2)%nat with (S (S (S (3 * k + 2)))) in Hb by lia.
    destruct flat as [|x [|y [|z rest]]]; simpl in *; try done.
    by apply IH.
Qed.

Lemma length_chunks {A} (n k : nat) (l : list A) : length (chunks n k l) = k.
Proof. revert l. induction k as [|k IH]; intros l; simpl; [done|]. by rewrite IH. Qed.

Lemma lookup_chunks {A} (n k r : nat) (l : list A) :
  (r < k)%nat → chunks n k l !! r = Some (take n (drop (r * n) l)).
Proof.
  revert r l. induction k as [|k IH]; intros r l Hr; [lia|].
  destruct r as [|r]; simpl; [done|].
  rewrite IH by lia. by rewrite drop_drop.
Qed.

Lemma pixel_at_chunks (pixels : list pixel) rows cols row col :
  0 ≤ row < rows → 0 ≤ col < cols →
  pixel_at (chunks (Z.to_nat cols) (Z.to_nat rows) pixels) row col
  = pixels !! Z.to_nat (row * cols + col).
Proof.
  intros Hrow Hcol. unfold pixel_at, image, pixel.
  rewrite lookup_chunks by lia. simpl.
  rewrite lookup_take_lt, lookup_drop by lia. f_equal.
  rewrite Z2Nat.inj_add, Z2Nat.inj_mul by nia. done.
Qed.

Lemma reshaped_pixels flat rows cols row col :
  0 ≤ rows → 0 ≤ cols → Z.of_nat (length flat) = rows * cols * 3 →
  0 ≤ row < rows → 0 ≤ col < cols →
  ∃ r g b,
    flat !! Z.to_nat (3 * (row * cols + col)) = Some r
    ∧ flat !! Z.to_nat (3 * (row * cols + col) + 1) = Some g
    ∧ flat !! Z.to_nat (3 * (row * cols + col) + 2) = Some b
    ∧ pixel_at (chunks (Z.to_nat cols) (Z.to_nat rows) (triples flat)) row col
      = Some (byte_val r, byte_val g, byte_val b)
    ∧ 0 ≤ byte_val r ≤ 255 ∧ 0 ≤ byte_val g ≤ 255 ∧ 0 ≤ byte_val b ≤ 255.
Proof.
  intros Hr Hc Hlen Hrow Hcol.
  assert (0 ≤ row * cols + col < rows * cols) as Hk by nia.
  destruct (lookup_lt_is_Some_2 flat (Z.to_nat (3 * (row * cols + col))))
    as [r Hfr]; [lia|].
  destruct (lookup_lt_is_Some_2 flat (Z.to_nat (3 * (row * cols + col) + 1)))
    as [g Hfg]; [lia|].
  destruct (lookup_lt_is_Some_2 flat (Z.to_nat (3 * (row * cols + col) + 2)))
    as [b Hfb]; [lia|].
  pose proof (byte_val_range r). pose proof (byte_val_range g).
  pose proof (byte_val_range b).
  exists r, g, b. split_and!; try done; try lia.
  rewrite pixel_at_chunks by done. apply lookup_triples.
  - by replace (3 * Z.to_nat (row * cols + col))%nat
      with (Z.to_nat (3 * (row * cols + col))) by lia.
  - by replace (3 * Z.to_nat (row * cols + col) + 1)%nat
      with (Z.to_nat (3 * (row * cols + col) + 1)) by lia.
  - by replace (3 * Z.to_nat (row * cols + col) + 2)%nat
      with (Z.to_nat (3 * (row * cols + col) + 2)) by lia.
Qed.

(** X12: reshape of a buffer of exactly rows*cols*3 bytes succeeds and
    gives rows rows in which the pixel at (row, col) is made of the
    three bytes at offset 3*(row*cols + col), each read as 0..255. *)
Theorem frombuffer_reshape_pixels flat rows cols w :
  0 ≤ rows → 0 ≤ cols → Z.of_nat (length flat) = rows * cols * 3 →
  ∃ image_array,
    frombuffer_reshape flat rows cols w = (Ok image_array, w)
    ∧ length image_array = Z.to_nat rows
    ∧ ∀ row col, 0 ≤ row < rows → 0 ≤ col < cols →
        ∃ r g b,
          flat !! Z.to_nat (3 * (row * cols + col)) = Some r
          ∧ flat !! Z.to_nat (3 * (row * cols + col) + 1) = Some g
          ∧ flat !! Z.to_nat (3 * (row * cols + col) + 2) = Some b
          ∧ pixel_at image_array row col = Some (byte_val r, byte_val g, byte_val b)
          ∧ 0 ≤ byte_val r ≤ 255 ∧ 0 ≤ byte_val g ≤ 255 ∧ 0 ≤ byte_val b ≤ 255.
Proof.
  intros Hr Hc Hlen. eexists. split_and!.
  - unfold frombuffer_reshape. by rewrite decide_True.
  - apply length_chunks.
  - intros row col Hrow Hcol. by apply reshaped_pixels.
Qed.

Lemma frombuffer_reshape_pixels_witness :
  ∃ image_array,
    frombuffer_reshape (byte_of <$> [255; 0; 0; 0; 255; 0; 0; 0; 255; 255; 255; 0])
      2 2 fresh
    = (Ok image_array, fresh)
    ∧ pixel_at image_array 1 0 = Some (0, 0, 255).
Proof.
  destruct (frombuffer_reshape_pixels
              (byte_of <$> [255; 0; 0; 0; 255; 0; 0; 0; 255; 255; 255; 0])
              2 2 fresh) as (image_array & Hrun & _ & Hpix); [lia | lia | reflexivity |].
  exists image_array. split; [done|].
  destruct (Hpix 1 0) as (r & g & b & Hr & Hg & Hb & Hp & _); [lia | lia |].
  simpl in Hr, Hg, Hb. by simplify_eq.
Defined.

Lemma strip_state_display self image_array leds row col p :
  geometry self → length leds = Z.to_nat (led_count self) →
  0 ≤ row < rows self → 0 ≤ col < cols self →
  pixel_at image_array row col = Some p →
  strip_state leds
    (clear_events self ++ (write <$> frame_writes self image_array)
     ++ [StripShow; Printed MsgDisplayed])
    !! Z.to_nat (physical_index (cols self) row col)
  = Some (clamped p).
Proof.
  intros Hgeo Hlen Hrow Hcol Hp.
  rewrite !strip_state_app. simpl.
  pose proof (physical_index_bounds (cols self) row col Hcol) as Hb.
  destruct Hgeo as (Hr & Hc & Hcount).
  apply strip_state_written; [apply NoDup_frame_targets | | nia |].
  - apply list_elem_of_lookup. exists (Z.to_nat (row * cols self + col)).
    rewrite lookup_frame_writes by done. by rewrite Hp.
  - rewrite length_strip_state, Hlen, Hcount. nia.
Qed.

(** X13: an ImageData frame whose payload arrives as exactly
    rows*cols*3 bytes is displayed without error, and a strip of
    led_count elements then shows, at the serpentine index of every
    (row, col), the three payload bytes at offset 3*(row*cols + col),
    unchanged by the clamp. *)
Theorem image_frame_rendered w self data_length flat w2 leds row col :
  led_matrix w = Some self → geometry self →
  recv data_length (record [Printed MsgReceivingImage] w) = (Ok flat, w2) →
  Z.of_nat (length flat) = rows self * cols self * 3 →
  length leds = Z.to_nat (led_count self) →
  0 ≤ row < rows self → 0 ≤ col < cols self →
  (handle_message 1 data_length w).1 = Ok tt
  ∧ ∃ r g b,
      flat !! Z.to_nat (3 * (row * cols self + col)) = Some r
      ∧ flat !! Z.to_nat (3 * (row * cols self + col) + 1) = Some g
      ∧ flat !! Z.to_nat (3 * (row * cols self + col) + 2) = Some b
      ∧ strip_state leds (emitted (handle_message 1 data_length) w)
          !! Z.to_nat (physical_index (cols self) row col)
        = Some (Color (byte_val r) (byte_val g) (byte_val b)).
Proof.
  intros Hlm Hgeo Hflat Hlen Hleds Hrow Hcol.
  destruct (recv_keeps _ _ _ _ Hflat) as (Hlm2 & Hev2 & _). simpl in Hlm2, Hev2.
  pose proof Hgeo as (Hr & Hc & _).
  pose proof (λ row col, reshaped_pixels flat (rows self) (cols self) row col Hr Hc Hlen)
    as Hpix.
  set (image_array := chunks (Z.to_nat (cols self)) (Z.to_nat (rows self)) (triples flat)) in *.
  assert (covers image_array self) as Hcov.
  { intros row' col' Hrow' Hcol'.
    destruct (Hpix row' col' Hrow' Hcol') as (r & g & b & _ & _ & _ & Hp & _).
    by eexists. }
  assert (handle_message 1 data_length w
          = (Ok tt, record (clear_events self
                            ++ (write <$> frame_writes self image_array)
                            ++ [StripShow; Printed MsgDisplayed]) w2)) as Hrun.
  { unfold handle_message. rewrite decide_False, decide_True by done.
    erewrite bind_ok by apply emits_print.
    erewrite bind_ok by apply Hflat.
    erewrite bind_ok; [|unfold led_matrix_attr; by rewrite Hlm2, Hlm].
    erewrite bind_ok; [|unfold frombuffer_reshape; by rewrite decide_True].
    by apply display_image_emits. }
  split; [by rewrite Hrun|].
  destruct (Hpix row col Hrow Hcol) as (r & g & b & Hfr & Hfg & Hfb & Hp & Hrange).
  exists r, g, b. split_and!; [done..|].
  unfold emitted. rewrite Hrun. cbn [snd]. simpl events.
  rewrite Hev2, <- app_assoc, drop_app_length.
  rewrite strip_state_app. simpl.
  rewrite (strip_state_display self image_array _ row col
             (byte_val r, byte_val g, byte_val b) Hgeo); [| |done..].
  - f_equal. unfold clamped, clip. f_equal; lia.
  - done.
Qed.

Lemma image_frame_rendered_witness :
  let payload := byte_of <$> [255; 0; 0; 0; 255; 0; 0; 0; 255; 255; 255; 0] in
  let w := configured two_by_two [Data payload] in
  (handle_message 1 12 w).1 = Ok tt
  ∧ strip_state (replicate 4 (Color 9 9 9)) (emitted (handle_message 1 12) w) !! 3%nat
    = Some (Color 0 0 255).
Proof.
  intros payload w.
  assert (geometry two_by_two) as Hgeo by (unfold geometry; simpl; lia).
  destruct (image_frame_rendered w two_by_two 12 payload
              (set_conn [] (record [Printed MsgReceivingImage] w))
              (replicate 4 (Color 9 9 9)) 1 0)
    as (Hok & r & g & b & Hr & Hg & Hb & Hstrip);
    [reflexivity | exact Hgeo | reflexivity | reflexivity | reflexivity
     | simpl; lia | simpl; lia |].
  split; [exact Hok|].
  simpl in Hr, Hg, Hb. simplify_eq. exact Hstrip.
Defined.

(** ** Test patterns on a configured matrix *)

Lemma emitted_run {A} (c : M A) w r evs w1 :
  c w = (r, w1) → events w1 = events w ++ evs → emitted c w = evs.
Proof.
  intros Hrun Hev. unfold emitted. rewrite Hrun. simpl.
  by rewrite Hev, drop_app_length.
Qed.

(** X14: with a matrix configured, TestPattern code 1 fills the whole
    strip with red, then blue, then green, each fill followed by one
    show and a 500 ms sleep; it returns without error, having slept
    1500 ms, with every element green. *)
Theorem rgb_sweep_frame w self leds :
  led_matrix w = Some self →
  length leds = Z.to_nat (led_count self) →
  handle_message 2 1 w
  = (Ok tt,
     record ([Printed (MsgTestCommand 1); Printed (MsgRunning "rgb_sweep")]
             ++ ((write <$> fill_writes self (Color 255 0 0)) ++ [StripShow; TimeSleep 500])
             ++ ((write <$> fill_writes self (Color 0 0 255)) ++ [StripShow; TimeSleep 500])
             ++ ((write <$> fill_writes self (Color 0 255 0)) ++ [StripShow; TimeSleep 500])
             ++ [Printed MsgTestPatternDone]) w)
  ∧ shows (emitted (handle_message 2 1) w) = 3%nat
  ∧ slept (emitted (handle_message 2 1) w) = 1500
  ∧ strip_state leds (emitted (handle_message 2 1) w)
    = replicate (length leds) (Color 0 255 0).
Proof.
  intros Hlm Hlen.
  assert (handle_message 2 1 w
          = (Ok tt,
             record ([Printed (MsgTestCommand 1); Printed (MsgRunning "rgb_sweep")]
                     ++ ((write <$> fill_writes self (Color 255 0 0))
                         ++ [StripShow; TimeSleep 500])
                     ++ ((write <$> fill_writes self (Color 0 0 255))
                         ++ [StripShow; TimeSleep 500])
                     ++ ((write <$> fill_writes self (Color 0 255 0))
                         ++ [StripShow; TimeSleep 500])
                     ++ [Printed MsgTestPatternDone]) w)) as Hrun.
  { unfold handle_message. rewrite !decide_False, !decide_True by done.
    erewrite bind_ok by apply emits_print.
    unfold run_test_pattern. erewrite bind_ok by apply emits_print.
    rewrite decide_True by done.
    erewrite bind_ok; [|unfold led_matrix_attr; simpl; by rewrite Hlm].
    rewrite (test_pattern_events self _ _), !record_app.
    do 2 f_equal. simpl. by rewrite <- !app_assoc. }
  split; [exact Hrun|].
  erewrite (emitted_run _ w) by (first [exact Hrun | reflexivity]).
  split_and!.
  - rewrite !shows_app, !shows_writes. done.
  - rewrite !slept_app, !slept_writes. done.
  - rewrite !strip_state_app. simpl.
    rewrite (strip_state_fill self (Color 0 255 0)).
    + by rewrite !length_strip_state.
    + by rewrite !length_strip_state.
Qed.

Lemma rgb_sweep_frame_witness :
  strip_state (replicate 4 (Color 9 9 9))
    (emitted (handle_message 2 1) (configured two_by_two []))
  = replicate 4 (Color 0 255 0).
Proof.
  apply (rgb_sweep_frame (configured two_by_two []) two_by_two
           (replicate 4 (Color 9 9 9))); reflexivity.
Defined.

Lemma shows_sweep self delay_ms (js : list Z) :
  shows (js ≫= λ j, (write <$> sweep_writes self j) ++ [StripShow; TimeSleep delay_ms])
  = length js.
Proof.
  induction js as [|j js IH]; [done|].
  rewrite bind_cons, !shows_app, shows_writes, IH. done.
Qed.

Lemma slept_sweep self delay_ms (js : list Z) :
  slept (js ≫= λ j, (write <$> sweep_writes self j) ++ [StripShow; TimeSleep delay_ms])
  = delay_ms * Z.of_nat (length js).
Proof.
  induction js as [|j js IH]; [simpl; lia|].
  rewrite bind_cons, !slept_app, slept_writes, IH. simpl. lia.
Qed.

(** X15: with a matrix configured, TestPattern code 2 runs the rainbow
    sweep with its default delay: it returns without error after 256
    shows and 256 sleeps of 20 ms, 5120 ms in all, whatever the size of
    the matrix (an empty one included). *)
Theorem rainbow_sweep_frame w self :
  led_matrix w = Some self →
  led_count self = rows self * cols self →
  (handle_message 2 2 w).1 = Ok tt
  ∧ shows (emitted (handle_message 2 2) w) = 256%nat
  ∧ slept (emitted (handle_message 2 2) w) = 5120
  ∧ led_matrix (handle_message 2 2 w).2 = Some self.
Proof.
  intros Hlm Hcount.
  assert (handle_message 2 2 w
          = (Ok tt,
             record ([Printed (MsgTestCommand 2); Printed (MsgRunning "rainbow_sweep")]
                     ++ (range 256 ≫= λ j,
                           (write <$> sweep_writes self j) ++ [StripShow; TimeSleep 20])
                     ++ [Printed MsgRainbowDone]) w)) as Hrun.
  { unfold handle_message. rewrite !decide_False, !decide_True by done.
    erewrite bind_ok by apply emits_print.
    rewrite decide_False, decide_True by done.
    unfold run_test_pattern. erewrite bind_ok by apply emits_print.
    rewrite decide_False, decide_True by done.
    erewrite bind_ok; [|unfold led_matrix_attr; simpl; by rewrite Hlm].
    assert (0 ≤ 20) as Hdelay by lia.
    by rewrite (rainbow_sweep_emits self 20 Hcount Hdelay _), !record_app. }
  split; [by rewrite Hrun|].
  erewrite (emitted_run _ w) by (first [exact Hrun | reflexivity]).
  split_and!.
  - rewrite !shows_app, shows_sweep. done.
  - rewrite !slept_app, slept_sweep. done.
  - by rewrite Hrun.
Qed.

Lemma rainbow_sweep_frame_witness :
  shows (emitted (handle_message 2 2) (configured (MkLEDMatrix 0 7 0) [])) = 256%nat
  ∧ slept (emitted (handle_message 2 2) (configured (MkLEDMatrix 0 7 0) [])) = 5120.
Proof.
  destruct (rainbow_sweep_frame (configured (MkLEDMatrix 0 7 0) []) (MkLEDMatrix 0 7 0))
    as (_ & Hshows & Hslept & _); [reflexivity | reflexivity |].
  by split.
Defined.

(** ** Frames the code does not know *)

(** X16: a frame whose type is not 0, 1 or 2 is dropped without a
    word: nothing is printed, no call is made, no payload is skipped,
    and the loop goes on to read the next 8 bytes as a header.  A
    TestPattern frame with a code other than 1 and 2 is reported as
    unknown and the loop goes on, even when no matrix is configured. *)
Theorem unknown_frame_skipped fuel w header message_type data_length w1 :
  recv 8 w = (Ok header, w1) → header ≠ [] →
  unpack_II header w1 = (Ok (message_type, data_length), w1) →
  (message_type ≠ 0 → message_type ≠ 1 → message_type ≠ 2 →
     read_loop (S fuel) w = read_loop fuel w1)
  ∧ (message_type = 2 → data_length ≠ 1 → data_length ≠ 2 →
     read_loop (S fuel) w
     = read_loop fuel
         (record [Printed (MsgTestCommand data_length); Printed MsgUnknownCode] w1)).
Proof.
  intros Hrecv Hne Hun. rewrite read_loop_S, Hrecv.
  destruct header as [|b header]; [done|]. rewrite Hun. split.
  - intros H0 H1 H2. unfold handle_message. by rewrite !decide_False.
  - intros -> H1 H2. unfold handle_message.
    rewrite !decide_False, decide_True by done.
    erewrite bind_ok by apply emits_print.
    rewrite !decide_False by done. unfold print, emit. by rewrite record_app.
Qed.

Lemma unknown_frame_skipped_witness :
  read_loop 3 (connected [Data (byte_of <$> [0; 0; 0; 9; 0; 0; 0; 4]);
                          Data (setup_frame 1 1)])
  = read_loop 2 (connected [Data (setup_frame 1 1)]).
Proof.
  destruct (unknown_frame_skipped 2
              (connected [Data (byte_of <$> [0; 0; 0; 9; 0; 0; 0; 4]);
                          Data (setup_frame 1 1)])
              (byte_of <$> [0; 0; 0; 9; 0; 0; 0; 4]) 9 4
              (connected [Data (setup_frame 1 1)]))
    as [Hskip _]; [reflexivity | discriminate | reflexivity |].
  apply Hskip; lia.
Defined.

(** ** Headers that cannot be read *)

Lemma unpack_II_short header w :
  length header ≠ 8%nat → unpack_II header w = (Raise StructError, w).
Proof.
  unfold unpack_II.
  destruct header as [|? [|? [|? [|? [|? [|? [|? [|? [|? ?]]]]]]]]]; simpl; by intros.
Qed.

(** X17: when the read of a header fails, or returns some bytes but
    not 8 of them, no frame is acted on: the condition is reported as a
    connection error (ConnectionError or struct.error), the matrix held
    is cleared and kept, and the connection is closed. *)
Theorem broken_header_ends_connection w :
  (∀ w1, recv 8 w = (Raise ConnectionError, w1) →
     serve_connection w
     = (Ok tt, record (Printed (MsgConnectionError ConnectionError)
                       :: cleanup_events (led_matrix w)) w1))
  ∧ (∀ header w1, recv 8 w = (Ok header, w1) →
       header ≠ [] → length header ≠ 8%nat →
       serve_connection w
       = (Ok tt, record (Printed (MsgConnectionError StructError)
                         :: cleanup_events (led_matrix w)) w1)).
Proof.
  split.
  - intros w1 Hrecv. destruct (recv_keeps _ _ _ _ Hrecv) as (Hlm1 & _).
    rewrite (serve_connection_raise w ConnectionError w1); [by rewrite Hlm1|].
    by rewrite read_loop_S, Hrecv.
  - intros header w1 Hrecv Hne Hlen.
    destruct (recv_keeps _ _ _ _ Hrecv) as (Hlm1 & _).
    rewrite (serve_connection_raise w StructError w1); [by rewrite Hlm1|].
    rewrite read_loop_S, Hrecv. destruct header as [|b header]; [done|].
    by rewrite unpack_II_short.
Qed.

Lemma broken_header_ends_connection_witness :
  let w := configured two_by_two [Data (byte_of <$> [0; 0; 0; 1; 0]); Data (setup_frame 1 1)] in
  serve_connection w
  = (Ok tt, record (Printed (MsgConnectionError StructError)
                    :: cleanup_events (Some two_by_two))
              (set_conn [Data (setup_frame 1 1)] w)).
Proof.
  intros w. destruct (broken_header_ends_connection w) as [_ Hshort].
  apply (Hshort (byte_of <$> [0; 0; 0; 1; 0])); [reflexivity | discriminate | ].
  simpl. lia.
Defined.

(** ** An image smaller than the matrix *)






(** ** A delay that time.sleep refuses *)



